(** * German flashcards PWA: scheduling, queue building, session and store

    A shallow embedding of [src/app.js] (SRS transition [applySRS], queue
    builder [buildStudyQueue], session step [gradeCurrent]) and of
    [src/db.js] (the IndexedDB wrapper for decks and cards), with the
    properties the specification states about them.

    Modelling conventions.
    - JavaScript numbers are modelled exactly: integers as [Z], the
      fractional quantities ([ease], [intervalDays], [due]) as rationals [Q]
      with the decimal literals of the source read as exact fractions
      ([0.20] is [1/5], [1.3] is [13/10]).  Binary64 rounding is not
      modelled.
    - The platform (clock [Date.now()], generator [Math.random()], storage
      failures) is an explicit [World]; impure functions thread it.
    - An IndexedDB database is a pair of finite maps keyed by the in-line
      key [id]; a transaction works on a private copy which becomes the
      visible database only when the transaction completes. *)

From Stdlib Require Import ZArith QArith Qround Lqa String Ascii List.
From Stdlib Require HexadecimalString DecimalString.
From stdpp Require Import base option list sorting gmap strings fin_maps.

Local Open Scope string_scope.
Local Open Scope Z_scope.
Local Open Scope list_scope.

(* ===================================================================== *)
(** * The platform *)
(* ===================================================================== *)

(** [clock] and [random] are the successive results of [Date.now()] and
    [Math.random()]; [ticks] and [draws] count the calls made so far.
    [faults] gives, for the successive transactions opened by the
    application, the storage fault injected into each one (see [Fault]);
    [num_hex] is [Number.prototype.toString(16)] on fractions, which
    ECMA-262 leaves implementation-approximated. *)
Record World := mkWorld {
  clock : nat -> Z;
  ticks : nat;
  random : nat -> Q;
  draws : nat;
  faults : nat -> option nat;
  txs : nat;
  num_hex : Q -> string
}.

(** State monad over the world. *)
Definition M (A : Type) : Type := World -> A * World.

Definition ret {A} (a : A) : M A := fun w => (a, w).
Definition bind {A B} (m : M A) (k : A -> M B) : M B :=
  fun w => let (a, w') := m w in k a w'.

Notation "'let!' x ':=' m 'in' k" := (bind m (fun x => k))
  (at level 10, x pattern, m at level 100, k at level 200).

Definition Date_now : M Z := fun w =>
  (clock w (ticks w),
   mkWorld (clock w) (S (ticks w)) (random w) (draws w) (faults w) (txs w) (num_hex w)).

Definition Math_random : M Q := fun w =>
  (random w (draws w),
   mkWorld (clock w) (ticks w) (random w) (S (draws w)) (faults w) (txs w) (num_hex w)).

Definition next_fault : M (option nat) := fun w =>
  (faults w (txs w),
   mkWorld (clock w) (ticks w) (random w) (draws w) (faults w) (S (txs w)) (num_hex w)).

(* ===================================================================== *)
(** * Data model (schema v1 of [db.js]) *)
(* ===================================================================== *)

(** [srs: {due, intervalDays, ease, reps, lapses}] *)
Record ReviewState := mkSRS {
  due : Q;
  intervalDays : Q;
  ease : Q;
  reps : Z;
  lapses : Z
}.

(** [cards: { id, deckId, english, german, article, plural, example, notes,
    createdAt, srs }] *)
Record Card := mkCard {
  id : string;
  deckId : string;
  english : string;
  german : string;
  article : string;
  plural : string;
  example : string;
  notes : string;
  createdAt : Z;
  srs : ReviewState
}.

(** [decks: { id, name, createdAt }] *)
Record Deck := mkDeck {
  deck_id : string;
  name : string;
  deck_createdAt : Z
}.

(* ===================================================================== *)
(** * SRS ([app.js], [clamp] and [applySRS]) *)
(* ===================================================================== *)

(** [Math.max] and [Math.min] of two numbers (no [NaN] among exact
    numbers). *)
Definition Math_max (a b : Q) : Q := if Qlt_le_dec a b then b else a.
Definition Math_min (a b : Q) : Q := if Qlt_le_dec b a then b else a.

(** [function clamp(n, min, max) { return Math.max(min, Math.min(max, n)); }] *)
Definition clamp (n min max : Q) : Q := Math_max min (Math_min max n).

Definition set_srs (c : Card) (s : ReviewState) : Card :=
  mkCard (id c) (deckId c) (english c) (german c) (article c) (plural c)
         (example c) (notes c) (createdAt c) s.

(** [s.intervalDays * 24*60*60*1000] *)
Definition days_ms (d : Q) : Q := (d * 24 * 60 * 60 * 1000)%Q.

(** [applySRS(card, grade)]: reads the clock, then updates [card.srs] in
    place; the updated card object is returned here.  A grade other than
    ["again"], ["good"], ["easy"] falls through all three tests and leaves
    the card as it was. *)
Definition applySRS (card : Card) (grade : string) : M Card :=
  let s := srs card in
  let! now := Date_now in
  if String.eqb grade "again" then
    let lapses' := lapses s + 1 in
    let reps' := 0 in
    let ease' := clamp (ease s - 0.20) 1.3 3.0 in
    let intervalDays' := 0.25%Q in
    let due' := (inject_Z now + days_ms intervalDays')%Q in
    ret (set_srs card (mkSRS due' intervalDays' ease' reps' lapses'))
  else if String.eqb grade "good" then
    let ease' := clamp (ease s + 0.05) 1.3 3.0 in
    let intervalDays' :=
      if (reps s =? 0)%Z then 1%Q
      else Math_max 1 (intervalDays s * ease')%Q in
    let reps' := reps s + 1 in
    let due' := (inject_Z now + days_ms intervalDays')%Q in
    ret (set_srs card (mkSRS due' intervalDays' ease' reps' (lapses s)))
  else if String.eqb grade "easy" then
    let ease' := clamp (ease s + 0.15) 1.3 3.0 in
    let intervalDays' :=
      if (reps s =? 0)%Z then 2%Q
      else Math_max 2 (intervalDays s * ease' * 1.3)%Q in
    let reps' := reps s + 1 in
    let due' := (inject_Z now + days_ms intervalDays')%Q in
    ret (set_srs card (mkSRS due' intervalDays' ease' reps' (lapses s)))
  else ret card.

(** Grading a card several times in a row; the list collects the card after
    every transition. *)
Fixpoint applySRS_each (card : Card) (grades : list string) : M (list Card) :=
  match grades with
  | [] => ret []
  | g :: gs =>
      let! c1 := applySRS card g in
      let! rest := applySRS_each c1 gs in
      ret (c1 :: rest)
  end.

Definition ease_in_range (s : ReviewState) : Prop :=
  (1.3 <= ease s /\ ease s <= 3.0)%Q.

(* ===================================================================== *)
(** * Queue builder ([app.js], [buildStudyQueue]) *)
(* ===================================================================== *)

(** [(c.srs?.due ?? 0) <= now] and [(c.srs?.due ?? 0) > now]; on a card
    that follows the schema, [c.srs.due] is present and the fallbacks of
    [?.] and [??] are not taken. *)
Definition due_by (now : Z) (c : Card) : Prop := (due (srs c) <= inject_Z now)%Q.
Definition due_after (now : Z) (c : Card) : Prop := (inject_Z now < due (srs c))%Q.

#[global] Instance due_by_dec now c : Decision (due_by now c) :=
  match Qlt_le_dec (inject_Z now) (due (srs c)) with
  | left Hlt => right (Qlt_not_le _ _ Hlt)
  | right Hle => left Hle
  end.

#[global] Instance due_after_dec now c : Decision (due_after now c) :=
  match Qlt_le_dec (inject_Z now) (due (srs c)) with
  | left Hlt => left Hlt
  | right Hle => right (Qle_not_lt _ _ Hle)
  end.

(** [q.some(x => x.id === c.id)] *)
Definition some_id (q : list Card) (c : Card) : Prop :=
  Exists (fun x => id x = id c) q.

(** [[q[i], q[j]] = [q[j], q[i]]].  Both reads happen first, then [q[i]]
    and [q[j]] are written in that order.  [None] stands for a swap with an
    index outside the array, where JavaScript would read [undefined] and
    store it into the queue. *)
Definition swap (q : list Card) (i : nat) (j : Z) : option (list Card) :=
  if (0 <=? j)%Z then
    match q !! Z.to_nat j, q !! i with
    | Some qj, Some qi => Some (<[Z.to_nat j := qi]> (<[i := qj]> q))
    | _, _ => None
    end
  else None.

(** [for (let i=q.length-1; i>0; i--) { const j = Math.floor(Math.random() *
    (i+1)); swap }], the loop counter being the structural argument. *)
Fixpoint shuffle_from (i : nat) (q : list Card) : M (option (list Card)) :=
  match i with
  | O => ret (Some q)
  | S i' =>
      let! r := Math_random in
      let j := Qfloor (r * inject_Z (Z.of_nat i + 1)) in
      match swap q i j with
      | Some q' => shuffle_from i' q'
      | None => ret None
      end
  end.

(** [q.slice(0, end)] for an integer [end]: a negative [end] counts from
    the end of the array. *)
Definition slice0 {A} (q : list A) (end_ : Z) : list A :=
  let len := Z.of_nat (length q) in
  let k := if (end_ <? 0)%Z then Z.max (len + end_) 0 else Z.min end_ len in
  take (Z.to_nat k) q.

Definition buildStudyQueue (cards : list Card) (goal : Z) : M (option (list Card)) :=
  let! now := Date_now in
  let due := filter (due_by now) cards in
  let fresh := filter (fun c => reps (srs c) = 0 /\ due_by now c) cards in
  let notDue := filter (due_after now) cards in
  let q := due in
  let q :=
    if (Z.of_nat (length q) <? goal)%Z then
      let add := filter (fun c => ~ some_id q c) (fresh ++ notDue)%list in
      (q ++ add)%list
    else q in
  let! shuffled := shuffle_from (length q - 1) q in
  ret (match shuffled with
       | Some q' => Some (slice0 q' goal)
       | None => None
       end).

(** [Math.random()] returns a number in [0, 1): this is what the draws not
    yet consumed are assumed to satisfy. *)
Definition random_ok (w : World) : Prop :=
  forall n, (draws w <= n)%nat -> (0 <= random w n /\ random w n < 1)%Q.

(* ===================================================================== *)
(** * The database ([db.js]) *)
(* ===================================================================== *)

(** ** Strings *)

(** [String.prototype.trim] on the ASCII white space and line terminators
    (TAB, LF, VT, FF, CR, SP); strings are byte strings, and the white
    space outside ASCII is not recognised. *)
Definition is_space (a : ascii) : bool :=
  let n := nat_of_ascii a in
  ((n =? 9) || (n =? 10) || (n =? 11) || (n =? 12) || (n =? 13) || (n =? 32))%nat.

Fixpoint trimStart (s : string) : string :=
  match s with
  | EmptyString => EmptyString
  | String a s' => if is_space a then trimStart s' else s
  end.

Fixpoint trimEnd (s : string) : string :=
  match s with
  | EmptyString => EmptyString
  | String a s' =>
      match trimEnd s' with
      | EmptyString => if is_space a then EmptyString else String a EmptyString
      | t => String a t
      end
  end.

Definition trim (s : string) : string := trimEnd (trimStart s).

(** [s.slice(2)] *)
Definition slice2 (s : string) : string := substring 2 (String.length s - 2) s.

(** [n.toString(16)] for an integer [n] *)
Definition Z_hex (n : Z) : string :=
  HexadecimalString.NilZero.string_of_int (Z.to_hex_int n).

(** ** Object stores and transactions *)

(** The two object stores, both with key path ["id"]. *)
Record Store := mkStore {
  decks : gmap string Deck;
  cards : gmap string Card
}.

(** What a rejected promise carries: an [Error] made by [db.js] itself, or
    the [DOMException] of a failed request or aborted transaction. *)
Inductive exn :=
  | Error (message : string)
  | DOMException.

(** A settled promise. *)
Inductive result (A : Type) :=
  | Ok (a : A)
  | Err (e : exn).
Arguments Ok {A} a.
Arguments Err {A} e.

(** Storage fault injected into one transaction: [Some n] makes the step
    number [n] of the transaction fail, the steps being its requests in the
    order they are placed, followed by the commit; [None] injects nothing. *)
Definition Fault := option nat.

(** State of a transaction body: it ran to its end with a value, it threw
    a JavaScript exception (the transaction is then left to commit what was
    requested so far), or the transaction aborted.  [work] is the private
    copy of the stores and [k] the number of requests placed. *)
Inductive outcome (A : Type) :=
  | Done (a : A) (work : Store) (k : nat)
  | Thrown (e : exn) (work : Store) (k : nat)
  | Aborted.
Arguments Done {A} a work k.
Arguments Thrown {A} e work k.
Arguments Aborted {A}.

Definition Tx (A : Type) : Type := Fault -> Store -> nat -> outcome A.

Definition tx_ret {A} (a : A) : Tx A := fun _ work k => Done a work k.
Definition tx_throw {A} (e : exn) : Tx A := fun _ work k => Thrown e work k.
Definition tx_bind {A B} (m : Tx A) (f : A -> Tx B) : Tx B :=
  fun flt work k =>
    match m flt work k with
    | Done a work' k' => f a flt work' k'
    | Thrown e work' k' => Thrown e work' k'
    | Aborted => Aborted
    end.

Notation "'tx!' x ':=' m 'in' k" := (tx_bind m (fun x => k))
  (at level 10, x pattern, m at level 100, k at level 200).

(** One request.  It fails when the fault is injected at this step, or when
    the operation itself is refused ([op] gives [None]); [db.js] installs no
    handler that would stop the error, so the transaction aborts. *)
Definition request {A} (op : Store -> option (A * Store)) : Tx A :=
  fun flt work k =>
    if decide (flt = Some k) then Aborted
    else match op work with
         | Some (a, work') => Done a work' (S k)
         | None => Aborted
         end.

(** [db.transaction(...)], the body, and [await txDone(tx)]: the database
    becomes the private copy when the transaction completes and stays as it
    was when the transaction aborts. *)
Definition transaction {A} (flt : Fault) (db : Store) (body : Tx A) : Store * result A :=
  match body flt db 0%nat with
  | Done a work k =>
      if decide (flt = Some k) then (db, Err DOMException) else (work, Ok a)
  | Thrown e work k =>
      if decide (flt = Some k) then (db, Err e) else (work, Err e)
  | Aborted => (db, Err DOMException)
  end.

(** Requests on the object store ["decks"]. *)
Definition decks_delete (key : string) : Tx unit :=
  request (fun s => Some (tt, mkStore (delete key (decks s)) (cards s))).
Definition decks_add (d : Deck) : Tx unit :=
  request (fun s =>
    match decks s !! deck_id d with
    | Some _ => None
    | None => Some (tt, mkStore (<[deck_id d := d]> (decks s)) (cards s))
    end).

(** Requests on the object store ["cards"]; [add] is refused when the key
    is taken, [put] inserts or overwrites. *)
Definition cards_get (key : string) : Tx (option Card) :=
  request (fun s => Some (cards s !! key, s)).
Definition cards_put (c : Card) : Tx unit :=
  request (fun s => Some (tt, mkStore (decks s) (<[id c := c]> (cards s)))).
Definition cards_add (c : Card) : Tx unit :=
  request (fun s =>
    match cards s !! id c with
    | Some _ => None
    | None => Some (tt, mkStore (decks s) (<[id c := c]> (cards s)))
    end).
Definition cards_delete (key : string) : Tx unit :=
  request (fun s => Some (tt, mkStore (decks s) (delete key (cards s)))).

(** Stable insertion sort, as [Array.prototype.sort] is stable. *)
Fixpoint insert_by {A} (leb : A -> A -> bool) (x : A) (l : list A) : list A :=
  match l with
  | [] => [x]
  | y :: l' => if leb x y then x :: l else y :: insert_by leb x l'
  end.
Definition sort_by {A} (leb : A -> A -> bool) (l : list A) : list A :=
  foldr (insert_by leb) [] l.

(** The index ["by_deck"] restricted to [IDBKeyRange.only(deckId)]: the
    records of that deck in the order of their primary keys. *)
Definition by_deck (s : Store) (deck : string) : list (string * Card) :=
  sort_by (fun x y => String.leb x.1 y.1)
          (filter (fun kc => deckId kc.2 = deck) (map_to_list (cards s))).

Definition by_deck_getAll (deck : string) : Tx (list Card) :=
  request (fun s => Some ((by_deck s deck).*2, s)).

(** [idx.openCursor(range)]: the request yields the primary keys the cursor
    will stop at.  The handler only deletes the record under the cursor, so
    the records still to be visited are those present when it was opened. *)
Definition by_deck_openCursor (deck : string) : Tx (list string) :=
  request (fun s => Some ((by_deck s deck).*1, s)).
Definition cursor_delete (key : string) : Tx unit := cards_delete key.
Definition cursor_continue : Tx unit := request (fun s => Some (tt, s)).

(** ** The operations of [db.js] *)

(** [uid()]: [Math.random().toString(16).slice(2) + "-" +
    Date.now().toString(16)] *)
Definition uid : M string :=
  let! r := Math_random in
  let! hex := (fun w => (num_hex w r, w)) in
  let! now := Date_now in
  ret (slice2 hex ++ "-" ++ Z_hex now)%string.

Definition addDeck (flt : Fault) (db : Store) (name : string) : M (Store * result Deck) :=
  let! i := uid in
  let! now := Date_now in
  let deck := mkDeck i (trim name) now in
  ret (transaction flt db (tx! _ := decks_add deck in tx_ret deck)).

(** The cursor loop of [deleteDeck]: [cur.delete(); cur.continue();] at
    every record the cursor stops at. *)
Fixpoint cursor_loop (keys : list string) : Tx unit :=
  match keys with
  | [] => tx_ret tt
  | key :: rest =>
      tx! _ := cursor_delete key in
      tx! _ := cursor_continue in
      cursor_loop rest
  end.

Definition deleteDeck (flt : Fault) (db : Store) (id : string) : Store * result unit :=
  transaction flt db
    (tx! _ := decks_delete id in
     tx! keys := by_deck_openCursor id in
     cursor_loop keys).

Definition getCardsByDeck (flt : Fault) (db : Store) (deckId : string)
  : Store * result (list Card) :=
  match transaction flt db (by_deck_getAll deckId) with
  | (db', Ok cards) =>
      (db', Ok (sort_by (fun a b => (createdAt a <=? createdAt b)%Z) cards))
  | (db', Err e) => (db', Err e)
  end.

Definition defaultSRS : M ReviewState :=
  let! now := Date_now in
  ret (mkSRS (inject_Z now) 0 2.3 0 0).

(** The [fields] argument of [addCard] and [updateCard]: [english] and
    [german] are strings, the other four may be missing. *)
Record Fields := mkFields {
  f_english : string;
  f_german : string;
  f_article : option string;
  f_plural : option string;
  f_example : option string;
  f_notes : option string
}.

(** [(x || "")] *)
Definition or_empty (x : option string) : string :=
  match x with Some s => s | None => "" end.

Definition addCard (flt : Fault) (db : Store) (deckId : string) (fields : Fields)
  : M (Store * result Card) :=
  let! i := uid in
  let! created := Date_now in
  let! s := defaultSRS in
  let card :=
    mkCard i deckId
           (trim (f_english fields)) (trim (f_german fields))
           (trim (or_empty (f_article fields))) (trim (or_empty (f_plural fields)))
           (trim (or_empty (f_example fields))) (trim (or_empty (f_notes fields)))
           created s in
  ret (transaction flt db (tx! _ := cards_add card in tx_ret card)).

Definition updateCard (flt : Fault) (db : Store) (cardId : string) (fields : Fields)
  : Store * result Card :=
  transaction flt db
    (tx! found := cards_get cardId in
     match found with
     | None => tx_throw (Error "Card not found")
     | Some card =>
         let card' :=
           mkCard (id card) (deckId card)
                  (trim (f_english fields)) (trim (f_german fields))
                  (trim (or_empty (f_article fields))) (trim (or_empty (f_plural fields)))
                  (trim (or_empty (f_example fields))) (trim (or_empty (f_notes fields)))
                  (createdAt card) (srs card) in
         tx! _ := cards_put card' in
         tx_ret card'
     end).

Definition deleteCard (flt : Fault) (db : Store) (cardId : string) : Store * result unit :=
  transaction flt db (cards_delete cardId).

Definition putCard (flt : Fault) (db : Store) (card : Card) : Store * result unit :=
  transaction flt db (cards_put card).

(** What [deleteDeck] is to leave behind: the deck gone, and with it every
    card of that deck and no other card. *)
Definition deck_deleted (db : Store) (deck : string) : Store :=
  mkStore (delete deck (decks db))
          (filter (fun kc => deckId kc.2 <> deck) (cards db)).

(** In-line keys: every record of ["cards"] is stored under its own [id]. *)
Definition keyPath_ok (db : Store) : Prop :=
  map_Forall (fun key c => id c = key) (cards db).

(* ===================================================================== *)
(** * Study session ([app.js], [study] and [gradeCurrent]) *)
(* ===================================================================== *)

(** The module variable [study]. *)
Record Study := mkStudy {
  active : bool;
  mode : string;
  study_deckId : option string;
  goal : Z;
  done : Z;
  queue : list Card;
  current : option Card;
  flipped : bool;
  genderAnswered : bool;
  genderCorrect : bool
}.

(** [String.prototype.toLowerCase] on ASCII letters. *)
Definition lower_ascii (a : ascii) : ascii :=
  let n := nat_of_ascii a in
  if ((65 <=? n) && (n <=? 90))%nat then ascii_of_nat (n + 32) else a.
Fixpoint toLowerCase (s : string) : string :=
  match s with
  | EmptyString => EmptyString
  | String a s' => String (lower_ascii a) (toLowerCase s')
  end.

(** A deck id tested as a condition: [null] and the empty string are
    falsy. *)
Definition truthy (x : option string) : bool :=
  match x with
  | Some s => negb (String.eqb s "")
  | None => false
  end.

(** [a === b] on deck ids that may be [null]. *)
Definition same_id (x y : option string) : bool :=
  match x, y with
  | Some s, Some t => String.eqb s t
  | None, None => true
  | _, _ => false
  end.

Section Session.

(** The page is the presentation layer: its document is kept abstract,
    and so are the functions of [app.js] that only draw on it. *)
Variable Dom : Type.
(** [$(selector).textContent = text] *)
Variable set_textContent : string -> string -> Dom -> Dom.
Variable setStudyVisible : bool -> Dom -> Dom.
Variable renderCurrentCard : Study -> Dom -> Dom.
(** The drawing done by [loadCardsForSelectedDeck] before it reads the
    cards (title and panels), given [selectedDeckId] and [decks]. *)
Variable showCardsPanel : option string -> list Deck -> Dom -> Dom.
(** [renderCardList] and [renderStudyStats] read the clock. *)
Variable renderCardList : list Card -> Dom -> M Dom.
Variable renderStudyStats : option string -> list Card -> Dom -> M Dom.

Definition setStatus (msg : string) : Dom -> Dom :=
  set_textContent "#footerStatus" msg.

(** The module variables of [app.js] and the page. *)
Record App := mkApp {
  db : Store;
  app_decks : list Deck;
  selectedDeckId : option string;
  selectedDeckCards : list Card;
  study : Study;
  dom : Dom
}.

Definition loadCardsForSelectedDeck (a : App) : M (App * result unit) :=
  if negb (truthy (selectedDeckId a)) then
    ret (mkApp (db a) (app_decks a) (selectedDeckId a) (selectedDeckCards a)
               (study a)
               (set_textContent "#cardList" ""
                  (showCardsPanel (selectedDeckId a) (app_decks a) (dom a))),
         Ok tt)
  else
    let dom1 := showCardsPanel (selectedDeckId a) (app_decks a) (dom a) in
    let! flt := next_fault in
    match getCardsByDeck flt (db a) (or_empty (selectedDeckId a)) with
    | (db', Ok loaded) =>
        let! dom2 := renderCardList loaded dom1 in
        let! dom3 := renderStudyStats (selectedDeckId a) loaded dom2 in
        ret (mkApp db' (app_decks a) (selectedDeckId a) loaded (study a) dom3,
             Ok tt)
    | (db', Err e) =>
        ret (mkApp db' (app_decks a) (selectedDeckId a) (selectedDeckCards a)
                   (study a) dom1,
             Err e)
    end.

Definition with_study (a : App) (s : Study) : App :=
  mkApp (db a) (app_decks a) (selectedDeckId a) (selectedDeckCards a) s (dom a).
Definition with_dom (a : App) (d : Dom) : App :=
  mkApp (db a) (app_decks a) (selectedDeckId a) (selectedDeckCards a) (study a) d.
Definition with_db (a : App) (s : Store) : App :=
  mkApp s (app_decks a) (selectedDeckId a) (selectedDeckCards a) (study a) (dom a).

(** [onGenderChoice(choice)] *)
Definition onGenderChoice (choice : string) (a : App) : App :=
  let st := study a in
  match current st with
  | Some c =>
      if negb (String.eqb (mode st) "gender") then a
      else
        let correct := trim (toLowerCase (article c)) in
        let st' :=
          mkStudy (active st) (mode st) (study_deckId st) (goal st) (done st)
                  (queue st) (current st) (flipped st)
                  true
                  (String.eqb choice correct && negb (String.eqb correct "")) in
        with_dom (with_study a st') (renderCurrentCard st' (dom a))
  | None => a
  end.

(** [gradeCurrent(grade)] *)
Definition gradeCurrent (grade : string) (a : App) : M (App * result unit) :=
  let st := study a in
  match active st, current st with
  | true, Some c =>
      if String.eqb (mode st) "gender" && negb (genderAnswered st) then
        ret (with_dom a (set_textContent "#genderResult"
                           "Pick der/die/das first." (dom a)),
             Ok tt)
      else
        (* applySRS(c, grade) updates the object study.current refers to *)
        let! c' := applySRS c grade in
        let st1 :=
          mkStudy (active st) (mode st) (study_deckId st) (goal st) (done st)
                  (queue st) (Some c') (flipped st) (genderAnswered st)
                  (genderCorrect st) in
        let! flt := next_fault in
        match putCard flt (db a) c' with
        | (db', Err e) => ret (with_db (with_study a st1) db', Err e)
        | (db', Ok _) =>
            let done' := done st1 + 1 in
            if (goal st1 <=? done')%Z || (length (queue st1) =? 0)%nat then
              let st2 :=
                mkStudy false (mode st1) (study_deckId st1) (goal st1) done'
                        (queue st1) (current st1) (flipped st1)
                        (genderAnswered st1) (genderCorrect st1) in
              let a2 :=
                with_dom (with_db (with_study a st2) db')
                         (setStatus "Session complete."
                            (setStudyVisible false (dom a))) in
              if same_id (selectedDeckId a2) (study_deckId st2)
              then loadCardsForSelectedDeck a2
              else ret (a2, Ok tt)
            else
              let st2 :=
                mkStudy (active st1) (mode st1) (study_deckId st1) (goal st1)
                        done' (tail (queue st1)) (head (queue st1))
                        false false false in
              ret (with_dom (with_db (with_study a st2) db')
                            (renderCurrentCard st2 (dom a)),
                   Ok tt)
        end
  | _, _ => ret (a, Ok tt)
  end.

End Session.

Arguments db {Dom} a.
Arguments app_decks {Dom} a.
Arguments selectedDeckId {Dom} a.
Arguments selectedDeckCards {Dom} a.
Arguments study {Dom} a.
Arguments dom {Dom} a.

(* ===================================================================== *)
(** * The rest of [db.js] *)
(* ===================================================================== *)

(** Further requests on the two object stores.  [getAll] yields the records
    in the order of their keys. *)
Definition decks_get (key : string) : Tx (option Deck) :=
  request (fun s => Some (decks s !! key, s)).
Definition decks_put (d : Deck) : Tx unit :=
  request (fun s => Some (tt, mkStore (<[deck_id d := d]> (decks s)) (cards s))).
Definition decks_clear : Tx unit :=
  request (fun s => Some (tt, mkStore ∅ (cards s))).
Definition cards_clear : Tx unit :=
  request (fun s => Some (tt, mkStore (decks s) ∅)).

Definition store_getAll {A} (m : gmap string A) : list A :=
  (sort_by (fun x y => String.leb x.1 y.1) (map_to_list m)).*2.
Definition decks_getAll : Tx (list Deck) :=
  request (fun s => Some (store_getAll (decks s), s)).
Definition cards_getAll : Tx (list Card) :=
  request (fun s => Some (store_getAll (cards s), s)).

(** [updateDeck(db, id, name)] *)
Definition updateDeck (flt : Fault) (db : Store) (id : string) (name : string)
  : Store * result Deck :=
  transaction flt db
    (tx! found := decks_get id in
     match found with
     | None => tx_throw (Error "Deck not found")
     | Some deck =>
         let deck' := mkDeck (deck_id deck) (trim name) (deck_createdAt deck) in
         tx! _ := decks_put deck' in
         tx_ret deck'
     end).

(** [wipeAll(db)] *)
Definition wipeAll (flt : Fault) (db : Store) : Store * result unit :=
  transaction flt db (tx! _ := decks_clear in cards_clear).

Section Locale.

(** [String.prototype.localeCompare] depends on the locale of the browser
    and is a parameter; the sort places an element before the first one it
    does not compare greater than. *)
Variable localeCompare : string -> string -> Z.

(** [getAllDecks(db)] *)
Definition getAllDecks (flt : Fault) (db : Store) : Store * result (list Deck) :=
  match transaction flt db decks_getAll with
  | (db', Ok all) =>
      (db', Ok (sort_by (fun a b => (localeCompare (name a) (name b) <=? 0)%Z) all))
  | (db', Err e) => (db', Err e)
  end.

End Locale.

(** The object [exportAll] returns. *)
Record Snapshot := mkSnapshot {
  version : Z;
  exportedAt : string;
  snapshot_decks : list Deck;
  snapshot_cards : list Card
}.

Section ExportSnapshot.

(** [Date.prototype.toISOString], applied to the clock reading. *)
Variable toISOString : Z -> string.

(** [exportAll(db)]: two read transactions, one after the other, each with
    its own fault. *)
Definition exportAll (flt1 flt2 : Fault) (db : Store) : M (Store * result Snapshot) :=
  match transaction flt1 db decks_getAll with
  | (db1, Err e) => ret (db1, Err e)
  | (db1, Ok all_decks) =>
      match transaction flt2 db1 cards_getAll with
      | (db2, Err e) => ret (db2, Err e)
      | (db2, Ok all_cards) =>
          let! now := Date_now in
          ret (db2, Ok (mkSnapshot 1 (toISOString now) all_decks all_cards))
      end
  end.

End ExportSnapshot.

(** Every card refers to a deck that is in the store. *)
Definition no_orphans (db : Store) : Prop :=
  map_Forall (fun _ c => is_Some (decks db !! deckId c)) (cards db).

(** The grades [applySRS] recognises. *)
Definition known_grade (g : string) : Prop := g = "again" \/ g = "good" \/ g = "easy".

(** What can be relied on about a review state: it holds at creation and
    after every transition. *)
Definition srs_ok (s : ReviewState) : Prop :=
  ease_in_range s /\ (0 <= reps s)%Z /\ (0 <= lapses s)%Z /\
  (0 <= intervalDays s)%Q /\ (reps s = 0%Z -> (intervalDays s <= 0.25)%Q).

(* ===================================================================== *)
(** * Text helpers of [app.js]: [escapeHtml], [parseCSV], [toCSV] *)
(* ===================================================================== *)

(** The characters the helpers test for.  Strings are byte strings; these
    characters are ASCII, and no byte of a longer UTF-8 sequence equals
    one of them. *)
Definition dquote : ascii := ascii_of_nat 34.
Definition squote : ascii := ascii_of_nat 39.
Definition amp : ascii := ascii_of_nat 38.
Definition lt_sign : ascii := ascii_of_nat 60.
Definition gt_sign : ascii := ascii_of_nat 62.
Definition comma : ascii := ascii_of_nat 44.
Definition CR : ascii := ascii_of_nat 13.
Definition LF : ascii := ascii_of_nat 10.

(** The replacement table of [escapeHtml]. *)
Definition escape_char (c : ascii) : string :=
  if Ascii.eqb c amp then "&amp;"
  else if Ascii.eqb c lt_sign then "&lt;"
  else if Ascii.eqb c gt_sign then "&gt;"
  else if Ascii.eqb c dquote then "&quot;"
  else if Ascii.eqb c squote then "&#039;"
  else String c EmptyString.

(** [escapeHtml(s)] on a string: every ampersand, angle bracket, double
    quote and single quote is replaced by its entry in the table. *)
Fixpoint escapeHtml (s : string) : string :=
  match s with
  | EmptyString => EmptyString
  | String c s' => (escape_char c ++ escapeHtml s')%string
  end.

(** [cur += ch] *)
Definition push_char (cur : string) (ch : ascii) : string :=
  (cur ++ String ch EmptyString)%string.

(** The loop of [parseCSV], on the text from position [i] on, with the
    variables [rows], [row], [cur], [inQuotes] of the source; it returns
    [rows], [row] and [cur] as they are when the text is exhausted.  The
    look-ahead [next = text[i+1]] is the head of [rest], and [i++] skips
    it. *)
Fixpoint parseCSV_loop (text : string) (rows : list (list string))
    (row : list string) (cur : string) (inQuotes : bool)
  : list (list string) * list string * string :=
  match text with
  | EmptyString => (rows, row, cur)
  | String ch rest =>
      if inQuotes then
        if Ascii.eqb ch dquote then
          match rest with
          | String next rest' =>
              if Ascii.eqb next dquote
              then parseCSV_loop rest' rows row (push_char cur dquote) true
              else parseCSV_loop rest rows row cur false
          | EmptyString => parseCSV_loop rest rows row cur false
          end
        else parseCSV_loop rest rows row (push_char cur ch) true
      else
        if Ascii.eqb ch dquote then parseCSV_loop rest rows row cur true
        else if Ascii.eqb ch comma then
          parseCSV_loop rest rows (row ++ [cur]) EmptyString false
        else if Ascii.eqb ch CR then parseCSV_loop rest rows row cur false
        else if Ascii.eqb ch LF then
          parseCSV_loop rest (rows ++ [row ++ [cur]]) [] EmptyString false
        else parseCSV_loop rest rows row (push_char cur ch) false
  end.

(** [parseCSV(text)] *)
Definition parseCSV (text : string) : list (list string) :=
  let '(rows, row, cur) := parseCSV_loop text [] [] EmptyString false in
  let row := row ++ [cur] in
  if (1 <? length row)%nat || negb (String.eqb (trim (nth 0 row EmptyString)) EmptyString)
  then rows ++ [row]
  else rows.

(** The test of [esc]: the cell holds a double quote, a comma or a line
    feed. *)
Fixpoint has_special (s : string) : bool :=
  match s with
  | EmptyString => false
  | String c s' =>
      Ascii.eqb c dquote || Ascii.eqb c comma || Ascii.eqb c LF || has_special s'
  end.

(** The replacement of [esc]: every double quote is written twice. *)
Fixpoint double_quotes (s : string) : string :=
  match s with
  | EmptyString => EmptyString
  | String c s' =>
      if Ascii.eqb c dquote then String dquote (String dquote (double_quotes s'))
      else String c (double_quotes s')
  end.

(** [esc] of [toCSV], on a string cell. *)
Definition esc (s : string) : string :=
  if has_special s
  then String dquote (double_quotes s ++ String dquote EmptyString)%string
  else s.

(** [toCSV(rows)] *)
Definition toCSV (rows : list (list string)) : string :=
  String.concat (String LF EmptyString)
    (map (fun r => String.concat (String comma EmptyString) (map esc r)) rows).

(* ===================================================================== *)
(** * Starting a session and answering ([app.js]) *)
(* ===================================================================== *)

(** [clamp] at integer arguments. *)
Definition clamp_int (n min max : Z) : Z := Z.max min (Z.min max n).

Section SessionStart.

Variable Dom : Type.
Variable set_textContent : string -> string -> Dom -> Dom.
Variable setStudyVisible : bool -> Dom -> Dom.
Variable renderCurrentCard : Study -> Dom -> Dom.
Variable alert : string -> Dom -> Dom.
(** What the handlers read from the page: the value of the deck select,
    the integer [parseInt] finds in the goal field (20 when the field is
    empty; a text that is no number is outside the model), and whether
    the gender-quiz button is the active one. *)
Variable studyDeckSelect_value : Dom -> string.
Variable sessionGoal_number : Dom -> Z.
Variable modeGender_active : Dom -> bool.

(** [startSession()].  [None] is the outcome in which the queue builder
    swapped outside its array (see [swap]). *)
Definition startSession (a : App Dom) : M (option (App Dom * result unit)) :=
  let deckId := studyDeckSelect_value (dom a) in
  if String.eqb deckId "" then
    ret (Some (with_dom Dom a (alert "Create/select a deck first." (dom a)), Ok tt))
  else
    let goal := clamp_int (sessionGoal_number (dom a)) 5 200 in
    let! flt := next_fault in
    match getCardsByDeck flt (db a) deckId with
    | (db', Err e) => ret (Some (with_db Dom a db', Err e))
    | (db', Ok loaded) =>
        if (length loaded =? 0)%nat then
          ret (Some (with_dom Dom (with_db Dom a db')
                              (alert "That deck has no cards." (dom a)),
                     Ok tt))
        else
          let goal' := Z.min goal (Z.of_nat (length loaded)) in
          let! built := buildStudyQueue loaded goal' in
          match built with
          | None => ret None
          | Some q =>
              let st :=
                mkStudy true
                        (if modeGender_active (dom a) then "gender" else "flash")
                        (Some deckId) goal' 0 (tail q) (head q)
                        false false false in
              ret (Some (with_dom Dom (with_study Dom (with_db Dom a db') st)
                                  (setStatus Dom set_textContent "Session started."
                                     (renderCurrentCard st
                                        (setStudyVisible true (dom a)))),
                         Ok tt))
          end
    end.

(** The click handler of [#btnShowAnswer]: flip in flashcard mode, reveal
    in the quiz. *)
Definition showAnswer (a : App Dom) : App Dom :=
  let st := study a in
  match active st, current st with
  | true, Some c =>
      if String.eqb (mode st) "flash" then
        let st' :=
          mkStudy (active st) (mode st) (study_deckId st) (goal st) (done st)
                  (queue st) (current st) (negb (flipped st))
                  (genderAnswered st) (genderCorrect st) in
        with_dom Dom (with_study Dom a st') (renderCurrentCard st' (dom a))
      else
        let st' :=
          mkStudy (active st) (mode st) (study_deckId st) (goal st) (done st)
                  (queue st) (current st) (flipped st) true false in
        with_dom Dom (with_study Dom a st')
                 (renderCurrentCard st'
                    (set_textContent "#genderResult"
                       ("Answer: " ++ (if String.eqb (article c) "" then "(none)"
                                       else article c))%string
                       (dom a)))
  | _, _ => a
  end.

End SessionStart.

(** In-line keys of ["decks"]: every deck is stored under its own id. *)
Definition deck_keyPath_ok (db : Store) : Prop :=
  map_Forall (fun key d => deck_id d = key) (decks db).

(** The records of a deck, in no particular order. *)
Definition deck_records (db : Store) (deck : string) : list Card :=
  (filter (fun kc => deckId kc.2 = deck) (map_to_list (cards db))).*2.

(** Both key paths at once. *)
Definition keys_ok (db : Store) : Prop := keyPath_ok db /\ deck_keyPath_ok db.

(** A transaction body keeps [Inv] when its private copy satisfies [Inv]
    wherever the body stops, given that it did at the start. *)
Definition tx_preserves {A} (Inv : Store -> Prop) (body : Tx A) : Prop :=
  forall flt work k, Inv work ->
    match body flt work k with
    | Done _ work' _ => Inv work'
    | Thrown _ work' _ => Inv work'
    | Aborted => True
    end.

(** The card [addCard] builds, from the readings it takes of the world. *)
Definition new_card (deckId0 : string) (fields : Fields) (w : World) : Card :=
  mkCard (fst (uid w)) deckId0
         (trim (f_english fields)) (trim (f_german fields))
         (trim (or_empty (f_article fields))) (trim (or_empty (f_plural fields)))
         (trim (or_empty (f_example fields))) (trim (or_empty (f_notes fields)))
         (clock w (S (ticks w)))
         (mkSRS (inject_Z (clock w (S (S (ticks w))))) 0 2.3 0 0).

(** Conditions under which [parseCSV] reads back what [toCSV] wrote: a
    cell holding a carriage return must be one that [esc] quotes, no row is
    empty, and the last row has several cells or a first cell that is not
    blank. *)
Fixpoint has_cr (s : string) : bool :=
  match s with
  | EmptyString => false
  | String c s' => Ascii.eqb c CR || has_cr s'
  end.
Definition csv_cell_ok (s : string) : Prop := has_special s = true \/ has_cr s = false.
Definition csv_row_ok (r : list string) : Prop := r <> [] /\ Forall csv_cell_ok r.
Definition csv_last_row_ok (rows : list (list string)) : Prop :=
  match last rows with
  | Some r => (1 < length r)%nat \/ trim (nth 0 r EmptyString) <> EmptyString
  | None => True
  end.
Definition starts_with_quote (s : string) : Prop :=
  match s with
  | String c _ => c = dquote
  | EmptyString => False
  end.

(** The text holds one of the five characters [escapeHtml] replaces. *)
Fixpoint has_html_special (s : string) : bool :=
  match s with
  | EmptyString => false
  | String c s' =>
      Ascii.eqb c amp || Ascii.eqb c lt_sign || Ascii.eqb c gt_sign
      || Ascii.eqb c dquote || Ascii.eqb c squote || has_html_special s'
  end.

(** A character that cannot open or close markup or an attribute value. *)
Definition html_inert (c : ascii) : Prop :=
  c <> lt_sign /\ c <> gt_sign /\ c <> dquote /\ c <> squote.

(** The text without its carriage returns, and whether it holds a double
    quote. *)
Fixpoint remove_cr (s : string) : string :=
  match s with
  | EmptyString => EmptyString
  | String c s' => if Ascii.eqb c CR then remove_cr s' else String c (remove_cr s')
  end.
Fixpoint has_quote (s : string) : bool :=
  match s with
  | EmptyString => false
  | String c s' => Ascii.eqb c dquote || has_quote s'
  end.

(** ** Running a session *)

(** A session in progress: a card is shown, and the cards graded, the card
    shown and the cards waiting add up to the goal. *)
Definition session_ok (st : Study) : Prop :=
  active st = true /\ is_Some (current st) /\
  done st + 1 + Z.of_nat (length (queue st)) = goal st.

(** [gradeCurrent] will not refuse for want of an answer. *)
Definition gradeable (st : Study) : Prop :=
  mode st <> "gender" \/ genderAnswered st = true.

Section SessionRun.

Variable Dom : Type.
Variable set_textContent : string -> string -> Dom -> Dom.
Variable setStudyVisible : bool -> Dom -> Dom.
Variable renderCurrentCard : Study -> Dom -> Dom.
Variable showCardsPanel : option string -> list Deck -> Dom -> Dom.
Variable renderCardList : list Card -> Dom -> M Dom.
Variable renderStudyStats : option string -> list Card -> Dom -> M Dom.

(** The grade buttons clicked one after the other, each click handled to
    its end before the next; a rejected promise is left unhandled, as on
    the page. *)
Fixpoint grade_clicks (grades : list string) (a : App Dom) : M (App Dom) :=
  match grades with
  | [] => ret a
  | g :: gs =>
      let! r := gradeCurrent Dom set_textContent setStudyVisible renderCurrentCard
                             showCardsPanel renderCardList renderStudyStats g a in
      grade_clicks gs (fst r)
  end.

End SessionRun.

(** No storage fault is injected into any transaction opened from now on. *)
Definition no_faults (w : World) : Prop :=
  forall n, (txs w <= n)%nat -> faults w n = None.

(* ===================================================================== *)
(** * Exporting a deck as CSV ([app.js], [exportDeckCSV]) *)
(* ===================================================================== *)

(** A character kept by the file-name clean-up of [exportDeckCSV]: a
    letter, a digit, an underscore, a hyphen or a space. *)
Definition filename_char (c : ascii) : bool :=
  let n := nat_of_ascii c in
  ((48 <=? n) && (n <=? 57) || (65 <=? n) && (n <=? 90) || (97 <=? n) && (n <=? 122)
   || (n =? 95) || (n =? 45) || (n =? 32))%nat.
Fixpoint keep_filename_chars (s : string) : string :=
  match s with
  | EmptyString => EmptyString
  | String c s' =>
      if filename_char c then String c (keep_filename_chars s')
      else keep_filename_chars s'
  end.

(** [x || fallback] on strings. *)
Definition or_string (x fallback : string) : string :=
  if String.eqb x "" then fallback else x.

(** The header row and the row of a card. *)
Definition csv_header : list string :=
  ["deck"; "english"; "german"; "article"; "plural"; "example"; "notes"].
Definition csv_card_row (deck_name : string) (c : Card) : list string :=
  [deck_name; english c; german c; article c; plural c; example c; notes c].

Section ExportDeck.

Variable Dom : Type.
Variable set_textContent : string -> string -> Dom -> Dom.
(** [downloadFile(filename, content, mime)] and the value of the export
    deck select. *)
Variable downloadFile : string -> string -> string -> Dom -> Dom.
Variable exportDeckSelect_value : Dom -> string.

(** [exportDeckCSV()] *)
Definition exportDeckCSV (a : App Dom) : M (App Dom * result unit) :=
  let deckId := exportDeckSelect_value (dom a) in
  if String.eqb deckId "" then
    ret (with_dom Dom a (set_textContent "#exportMsg" "No deck selected." (dom a)),
         Ok tt)
  else
    let deck := List.find (fun d => String.eqb (deck_id d) deckId) (app_decks a) in
    let deck_name := match deck with Some d => name d | None => "" end in
    let! flt := next_fault in
    match getCardsByDeck flt (db a) deckId with
    | (db', Err e) => ret (with_db Dom a db', Err e)
    | (db', Ok loaded) =>
        let rows := csv_header :: map (csv_card_row deck_name) loaded in
        let csv := toCSV rows in
        let filename :=
          (or_string (trim (keep_filename_chars (or_string deck_name "deck"))) "deck"
             ++ ".csv")%string in
        let msg :=
          ("Exported "
             ++ DecimalString.NilZero.string_of_uint (Nat.to_uint (length loaded))
             ++ " cards.")%string in
        ret (with_dom Dom (with_db Dom a db')
                      (set_textContent "#exportMsg" msg
                         (downloadFile filename csv "text/csv" (dom a))),
             Ok tt)
    end.

End ExportDeck.

(** Every text of the card can be written to CSV and read back. *)
Definition card_csv_ok (c : Card) : Prop :=
  Forall csv_cell_ok [english c; german c; article c; plural c; example c; notes c].


(* ===================================================================== *)
(** * Sample values *)
(* ===================================================================== *)

(** Sample values used by the examples below. *)
Definition world0 : World :=
  mkWorld (fun n => 1700000000000 + Z.of_nat n) 0
          (fun n => match n with O => 0.5%Q | S O => 0.9%Q | _ => 0.1%Q end) 0
          (fun _ => None) 0 (fun _ => "0.8").

Definition srs0 : ReviewState := mkSRS 1700000000000 0 2.3 0 0.

Definition card0 : Card :=
  mkCard "c0" "d0" "the house" "Haus" "das" "Häuser" "Das Haus ist groß." ""
         1700000000000 srs0.

Definition world1 : World :=
  mkWorld (fun _ => 1700000000000) 7 (fun _ => 0.25%Q) 3 (fun _ => Some 0%nat) 2
          (fun _ => "0.4").

Definition card1 : Card :=
  mkCard "c1" "d0" "the dog" "Hund" "der" "Hunde" "" "" 1700000000001
         (mkSRS 1800000000000 1 2.3 1 0).
Definition card2 : Card :=
  mkCard "c2" "d0" "the cat" "Katze" "die" "Katzen" "" "" 1700000000002
         (mkSRS 1600000000000 2 2.3 1 0).

(** A sample database: one deck holding [card0], [card1] and [card2], and a
    card of another deck. *)
Definition deck0 : Deck := mkDeck "d0" "Starter" 1700000000000.
Definition deck1 : Deck := mkDeck "d1" "Verbs" 1700000000005.
Definition card3 : Card :=
  mkCard "c3" "d1" "to go" "gehen" "" "" "" "" 1700000000003 srs0.

Definition db0 : Store :=
  mkStore (<["d0" := deck0]> (<["d1" := deck1]> ∅))
          (<["c0" := card0]> (<["c1" := card1]> (<["c2" := card2]> (<["c3" := card3]> ∅)))).

Definition fields0 : Fields :=
  mkFields " the home " "Heim" (Some "das ") None (Some "") (Some "n.").

Definition blank_fields : Fields := mkFields "  " "" None None None None.

(** A page that records what is written to it, and a gender-quiz session
    on the sample deck with [card0] shown and [card2] waiting. *)
Definition Page : Type := list (string * string).
Definition page_set (selector text : string) (d : Page) : Page :=
  (selector, text) :: d.
Definition page_visible (shown : bool) (d : Page) : Page :=
  ("#studyArea", if shown then "shown" else "hidden") :: d.
Definition page_card (st : Study) (d : Page) : Page :=
  ("#cardFace", match current st with Some c => german c | None => "" end) :: d.

Definition gradeCurrent0 : string -> App Page -> M (App Page * result unit) :=
  gradeCurrent Page page_set page_visible page_card
               (fun _ _ d => d) (fun _ d => ret d) (fun _ _ d => ret d).
Definition onGenderChoice0 : string -> App Page -> App Page :=
  onGenderChoice Page page_card.

Definition study0 : Study :=
  mkStudy true "gender" (Some "d0") 2 0 [card2] (Some card0) false false false.
Definition app0 : App Page :=
  mkApp Page db0 [deck0; deck1] (Some "d0") [card0; card1; card2] study0 [].

(** A table with a comma, double quotes and a line feed inside cells. *)
Definition csv_rows0 : list (list string) :=
  [ ["english"; "german"];
    ["the house, big"; String dquote ("Haus" ++ String dquote EmptyString)%string];
    [String LF "x"; ""] ].

(** A store in which the id that [world0] generates is already taken. *)
Definition db_taken : Store :=
  mkStore ∅ (<["8-18bcfe56800" := card3]> ∅).

(** A flashcard session on the sample deck, and the handlers on the
    recording page; the deck select shows the sample deck and the goal
    field holds 20. *)
Definition study_flash : Study :=
  mkStudy true "flash" (Some "d0") 2 0 [card2] (Some card0) false false false.
Definition app_flash : App Page :=
  mkApp Page db0 [deck0; deck1] (Some "d0") [card0; card1; card2] study_flash [].
Definition page_alert (msg : string) (d : Page) : Page := ("alert", msg) :: d.
Definition page_download (filename content mime : string) (d : Page) : Page :=
  (filename, content) :: d.

Definition grade_clicks0 : list string -> App Page -> M (App Page) :=
  grade_clicks Page page_set page_visible page_card
               (fun _ _ d => d) (fun _ d => ret d) (fun _ _ d => ret d).
Definition showAnswer0 : App Page -> App Page := showAnswer Page page_set page_card.
Definition startSession0 : App Page -> M (option (App Page * result unit)) :=
  startSession Page page_set page_visible page_card page_alert
               (fun _ => "d0") (fun _ => 20) (fun _ => false).
Definition startSession_none : App Page -> M (option (App Page * result unit)) :=
  startSession Page page_set page_visible page_card page_alert
               (fun _ => "") (fun _ => 20) (fun _ => false).
Definition exportDeckCSV0 : App Page -> M (App Page * result unit) :=
  exportDeckCSV Page page_set page_download (fun _ => "d0").


(* ===================================================================== *)
(** * Properties *)
(* ===================================================================== *)

(** ** SRS *)

Lemma clamp_bounds (n lo hi : Q) :
  (lo <= hi)%Q -> (lo <= clamp n lo hi /\ clamp n lo hi <= hi)%Q.
Proof.
  intros Hlh. unfold clamp, Math_max, Math_min.
  destruct (Qlt_le_dec n hi) as [Hn|Hn];
    destruct (Qlt_le_dec lo _) as [Hl|Hl]; split; lra.
Qed.

Example applySRS_again_then_good :
  srs (fst ((let! c1 := applySRS card0 "again" in applySRS c1 "good") world0))
  = mkSRS (inject_Z 1700000000001 + days_ms 1)%Q 1
          (clamp (clamp (2.3 - 0.20) 1.3 3.0 + 0.05) 1.3 3.0) 1 1.
Proof. reflexivity. Qed.

Example applySRS_unknown_grade :
  fst (applySRS card0 "hard" world0) = card0.
Proof. reflexivity. Qed.

Lemma applySRS_world card grade w :
  snd (applySRS card grade w) = snd (Date_now w).
Proof.
  unfold applySRS, bind, ret. simpl.
  repeat (destruct (String.eqb grade _); [reflexivity|]). reflexivity.
Qed.

Lemma applySRS_ease_step card grade w :
  ease_in_range (srs card) ->
  ease_in_range (srs (fst (applySRS card grade w))).
Proof.
  intros Hr. unfold applySRS, bind, ret, ease_in_range. simpl.
  repeat (destruct (String.eqb grade _);
          [simpl; apply clamp_bounds; lra|]).
  exact Hr.
Qed.

(** C2. Starting from a review state whose ease lies in [1.3, 3.0], grading
    with any finite sequence of grades drawn from "again", "good", "easy"
    produces one state per grade, and the ease of every one of them lies in
    [1.3, 3.0]. *)
Theorem applySRS_each_ease_in_range (card : Card) (grades : list string) (w : World) :
  ease_in_range (srs card) ->
  Forall (fun g => g = "again" \/ g = "good" \/ g = "easy") grades ->
  length (fst (applySRS_each card grades w)) = length grades /\
  Forall (fun c => ease_in_range (srs c)) (fst (applySRS_each card grades w)).
Proof.
  intros Hr _. revert card w Hr.
  induction grades as [|g gs IH]; intros card w Hr; simpl.
  - split; [reflexivity | constructor].
  - unfold bind, ret.
    pose proof (applySRS_ease_step card g w Hr) as Hstep.
    destruct (applySRS card g w) as [c1 w1]. simpl in Hstep.
    specialize (IH c1 w1 Hstep).
    destruct (applySRS_each c1 gs w1) as [rest w2]. simpl in *.
    destruct IH as [Hlen Hall]. split; [congruence | constructor; assumption].
Qed.

Lemma applySRS_each_ease_in_range_witness :
  ease_in_range (srs card0) /\
  Forall (fun c => ease_in_range (srs c))
         (fst (applySRS_each card0 ["again"; "easy"; "easy"; "good"] world0)).
Proof.
  assert (H0 : ease_in_range (srs card0)) by (unfold ease_in_range; simpl; lra).
  split; [exact H0|].
  apply (applySRS_each_ease_in_range card0 ["again"; "easy"; "easy"; "good"] world0 H0).
  repeat (apply List.Forall_cons;
          [first [left; reflexivity | right; left; reflexivity
                 | right; right; reflexivity]|]).
  apply List.Forall_nil.
Defined.

(** C3. A single "again" grade, from any prior state and at any clock
    reading [now], gives [reps = 0], [intervalDays = 0.25],
    [due = now + 0.25 days] (a day being 86400000 ms), [lapses] incremented
    by one and [ease = clamp(ease - 0.20)] into [1.3, 3.0]. *)
Theorem applySRS_again (card : Card) (w : World) :
  reps (srs (fst (applySRS card "again" w))) = 0 /\
  intervalDays (srs (fst (applySRS card "again" w))) = 0.25%Q /\
  (due (srs (fst (applySRS card "again" w)))
     == inject_Z (clock w (ticks w)) + 0.25 * 86400000)%Q /\
  lapses (srs (fst (applySRS card "again" w))) = lapses (srs card) + 1 /\
  ease (srs (fst (applySRS card "again" w)))
    = Math_max 1.3 (Math_min 3.0 (ease (srs card) - 0.20)) /\
  (1.3 <= ease (srs (fst (applySRS card "again" w))) <= 3.0)%Q.
Proof.
  unfold applySRS, bind, ret. simpl.
  split; [reflexivity|]. split; [reflexivity|].
  split; [unfold days_ms; lra|]. split; [reflexivity|].
  split; [reflexivity|]. apply clamp_bounds. lra.
Qed.

(** C6 (as stated, refuted): the result of [applySRS] is not a function of
    the card and the grade alone.  Two calls on the same card with the same
    grade, made at different readings of the global clock, return different
    review states: the function reads [Date.now()] itself. *)
Lemma applySRS_reads_global_clock :
  ~ (forall (card : Card) (grade : string) (w1 w2 : World),
       srs (fst (applySRS card grade w1)) = srs (fst (applySRS card grade w2))).
Proof.
  intros H.
  specialize (H card0 "again" world0 (snd (Date_now world0))).
  vm_compute in H. discriminate H.
Qed.

(** C6 (amended). [applySRS] obtains [now] by one read of the global clock;
    two runs on the same card and grade whose clock reads return the same
    time produce identical cards (hence identical review states), and the
    only effect on the platform is that one clock read. *)
Theorem applySRS_deterministic_given_clock (card : Card) (grade : string) (w1 w2 : World) :
  clock w1 (ticks w1) = clock w2 (ticks w2) ->
  fst (applySRS card grade w1) = fst (applySRS card grade w2) /\
  snd (applySRS card grade w1) = snd (Date_now w1).
Proof.
  intros Hc. split; [|apply applySRS_world].
  unfold applySRS, bind, ret. simpl. rewrite Hc.
  repeat (destruct (String.eqb grade _); [reflexivity|]). reflexivity.
Qed.

Lemma applySRS_deterministic_given_clock_witness :
  clock world0 (ticks world0) = clock world1 (ticks world1) /\
  fst (applySRS card0 "easy" world0) = fst (applySRS card0 "easy" world1).
Proof.
  split; [reflexivity|].
  apply (applySRS_deterministic_given_clock card0 "easy" world0 world1).
  reflexivity.
Defined.

(** ** Queue builder *)

Example buildStudyQueue_three :
  fst (buildStudyQueue [card0; card1; card2] 5 world0) = Some [card0; card1; card2].
Proof. vm_compute. reflexivity. Qed.

Example buildStudyQueue_two_due :
  fst (buildStudyQueue [card0; card1; card2] 2 world0) = Some [card0; card2].
Proof. vm_compute. reflexivity. Qed.

(** ** The shuffle permutes the queue *)

Section swap_facts.
Context {A : Type}.
Implicit Types (l : list A) (x y : A).

Lemma insert_head_perm l j x y :
  l !! j = Some y -> y :: <[j := x]> l ≡ₚ x :: l.
Proof.
  revert j. induction l as [|a l IH]; intros [|j] Hj; simplify_eq/=.
  - apply perm_swap.
  - rewrite (perm_swap a y). rewrite (IH j Hj). apply perm_swap.
Qed.

Lemma insert_swap_perm l i j x y :
  l !! i = Some x -> l !! j = Some y ->
  <[j := x]> (<[i := y]> l) ≡ₚ l.
Proof.
  revert i j. induction l as [|a l IH]; intros [|i] [|j] Hi Hj; simplify_eq/=.
  - reflexivity.
  - by apply insert_head_perm.
  - by apply insert_head_perm.
  - f_equiv. by apply IH.
Qed.
End swap_facts.

Lemma swap_perm q i j q' : swap q i j = Some q' -> q' ≡ₚ q.
Proof.
  unfold swap. destruct (0 <=? j)%Z; [|discriminate].
  destruct (q !! Z.to_nat j) as [qj|] eqn:Hj; [|discriminate].
  destruct (q !! i) as [qi|] eqn:Hi; [|discriminate].
  intros [= <-]. by apply insert_swap_perm.
Qed.

Lemma swap_in_range q (i : nat) (j : Z) :
  (i < length q)%nat -> (0 <= j <= Z.of_nat i)%Z -> is_Some (swap q i j).
Proof.
  intros Hi Hj. unfold swap.
  destruct (Z.leb_spec 0 j) as [_|?]; [|lia].
  destruct (lookup_lt_is_Some_2 q (Z.to_nat j)) as [qj ->]; [lia|].
  destruct (lookup_lt_is_Some_2 q i) as [qi ->]; [lia|]. eauto.
Qed.

Lemma Qfloor_index (r : Q) (i : nat) :
  (0 <= r)%Q -> (r < 1)%Q ->
  (0 <= Qfloor (r * inject_Z (Z.of_nat i + 1)) <= Z.of_nat i)%Z.
Proof.
  intros H0 H1.
  assert (Hk : (0 < inject_Z (Z.of_nat i + 1))%Q).
  { change 0%Q with (inject_Z 0). rewrite <- Zlt_Qlt. lia. }
  split.
  - change 0%Z with (Qfloor 0). apply Qfloor_resp_le.
    apply Qmult_le_0_compat; [assumption | apply Qlt_le_weak; assumption].
  - assert (Hlt : (inject_Z (Qfloor (r * inject_Z (Z.of_nat i + 1)))
                    < inject_Z (Z.of_nat i + 1))%Q).
    { eapply Qle_lt_trans; [apply Qfloor_le|].
      rewrite <- (Qmult_1_l (inject_Z (Z.of_nat i + 1))) at 2.
      apply Qmult_lt_compat_r; assumption. }
    rewrite <- Zlt_Qlt in Hlt. lia.
Qed.

Lemma shuffle_from_perm (i : nat) (q : list Card) (w : World) :
  (i < length q)%nat -> random_ok w ->
  exists q', fst (shuffle_from i q w) = Some q' /\ q' ≡ₚ q.
Proof.
  revert q w. induction i as [|i IH]; intros q w Hi Hw.
  - exists q. split; reflexivity.
  - cbn [shuffle_from]. unfold bind, Math_random.
    destruct (Hw (draws w)) as [H0 H1]; [lia|].
    pose proof (Qfloor_index (random w (draws w)) (S i) H0 H1) as Hj.
    destruct (swap_in_range q (S i) _ Hi Hj) as [q1 Hq1].
    rewrite Hq1. pose proof (swap_perm _ _ _ _ Hq1) as Hp.
    match goal with |- context [shuffle_from i q1 ?w1] =>
      destruct (IH q1 w1) as (q' & Hq' & Hp') end.
    + rewrite (Permutation_length Hp). lia.
    + intros n Hn. apply Hw. simpl in Hn. lia.
    + exists q'. split; [exact Hq' | by rewrite Hp'].
Qed.

Lemma shuffle_perm (q : list Card) (w : World) :
  random_ok w ->
  exists q', fst (shuffle_from (length q - 1) q w) = Some q' /\ q' ≡ₚ q.
Proof.
  intros Hw. destruct q as [|c q].
  - exists []. split; reflexivity.
  - apply shuffle_from_perm; [simpl; lia | exact Hw].
Qed.

(** ** The candidate list *)

Section filter_facts.
Context {A : Type} (P : A -> Prop) `{!forall x, Decision (P x)}.

Lemma filter_none (l : list A) : Forall (fun x => ~ P x) l -> filter P l = [].
Proof.
  induction 1 as [|x l Hx _ IH]; [reflexivity|].
  by rewrite filter_cons_False.
Qed.

Lemma filter_all (l : list A) : Forall P l -> filter P l = l.
Proof.
  induction 1 as [|x l Hx _ IH]; [reflexivity|].
  rewrite filter_cons_True by done. by rewrite IH.
Qed.
End filter_facts.

Lemma NoDup_fmap_elem_inj {A B} (f : A -> B) (l : list A) x y :
  NoDup (f <$> l) -> x ∈ l -> y ∈ l -> f x = f y -> x = y.
Proof.
  induction l as [|a l IH]; intros Hnd Hx Hy Hf; [by apply elem_of_nil in Hx|].
  rewrite fmap_cons in Hnd. apply NoDup_cons in Hnd as [Ha Hnd].
  apply elem_of_cons in Hx as [->|Hx]; apply elem_of_cons in Hy as [->|Hy].
  - reflexivity.
  - exfalso. apply Ha. rewrite Hf. by apply list_elem_of_fmap_2.
  - exfalso. apply Ha. rewrite <- Hf. by apply list_elem_of_fmap_2.
  - by apply IH.
Qed.

Lemma due_after_iff now c : due_after now c <-> ~ due_by now c.
Proof.
  unfold due_after, due_by. split.
  - apply Qlt_not_le.
  - apply Qnot_le_lt.
Qed.

(** With distinct ids, what is appended to the due cards is exactly the
    list of cards that are not due: the [fresh] cards are all due already. *)
Lemma add_is_notDue (cards : list Card) (now : Z) :
  NoDup (id <$> cards) ->
  filter (fun c => ~ some_id (filter (due_by now) cards) c)
         (filter (fun c => reps (srs c) = 0%Z /\ due_by now c) cards
            ++ filter (due_after now) cards)
  = filter (due_after now) cards.
Proof.
  intros Hnd. rewrite filter_app.
  rewrite filter_none, filter_all; [reflexivity| |].
  - apply Forall_forall. intros c Hc.
    apply list_elem_of_filter in Hc as [Hc Hin].
    unfold some_id. rewrite Exists_exists. intros (x & Hx & Hid).
    apply list_elem_of_filter in Hx as [Hx Hxin].
    assert (x = c) as -> by (eapply NoDup_fmap_elem_inj; eauto).
    by apply due_after_iff in Hc.
  - apply Forall_forall. intros c Hc.
    apply list_elem_of_filter in Hc as [[_ Hc] Hin].
    intros Hno. apply Hno. unfold some_id. rewrite Exists_exists.
    exists c. split; [|reflexivity]. by apply list_elem_of_filter.
Qed.

Lemma due_notDue_perm (cards : list Card) (now : Z) :
  filter (due_by now) cards ++ filter (due_after now) cards ≡ₚ cards.
Proof.
  rewrite (list_filter_iff (due_after now) (fun c => ~ due_by now c)).
  - apply filter_app_complement.
  - intros c. apply due_after_iff.
Qed.

Lemma slice0_nonneg {A} (q : list A) (n : Z) :
  (0 <= n)%Z -> slice0 q n = take (Z.to_nat n) q.
Proof.
  intros Hn. unfold slice0.
  destruct (Z.ltb_spec n 0); [lia|].
  destruct (Z.min_spec n (Z.of_nat (length q))) as [[? ->]|[? ->]]; [reflexivity|].
  rewrite Nat2Z.id, !firstn_all2; [reflexivity | lia | reflexivity].
Qed.

(** C7. For cards with pairwise distinct ids and a goal of at least 1 (and
    a generator returning numbers in [0, 1)), [buildStudyQueue] returns a
    queue drawn from the cards, of length [min(goal, C)], without duplicate
    ids; and if at least [goal] cards are due at the time read by the
    builder, every card of the queue is due. *)
Theorem buildStudyQueue_length_nodup_due (cards : list Card) (goal : Z) (w : World) :
  NoDup (id <$> cards) -> (1 <= goal)%Z -> random_ok w ->
  exists q,
    fst (buildStudyQueue cards goal w) = Some q /\
    Z.of_nat (length q) = Z.min goal (Z.of_nat (length cards)) /\
    NoDup (id <$> q) /\
    q ⊆ cards /\
    ((goal <= Z.of_nat (length (filter (due_by (clock w (ticks w))) cards)))%Z ->
     Forall (due_by (clock w (ticks w))) q).
Proof.
  intros Hnd Hgoal Hw.
  unfold buildStudyQueue, bind, Date_now, ret.
  set (now := clock w (ticks w)).
  pose (dueL := filter (due_by now) cards).
  match goal with |- context [shuffle_from _ ?q ?w1] =>
    set (cand := q); destruct (shuffle_perm cand w1) as (q' & Hq' & Hp) end.
  { intros n Hn. apply Hw. exact Hn. }
  destruct (shuffle_from _ cand _) as [sh w2]. simpl in Hq'. subst sh.
  exists (slice0 q' goal). split; [reflexivity|].
  rewrite slice0_nonneg by lia.
  assert (Hcase : ((Z.of_nat (length dueL) < goal)%Z /\ cand ≡ₚ cards) \/
                  ((goal <= Z.of_nat (length dueL))%Z /\ cand = dueL)).
  { subst cand dueL.
    destruct (Z.ltb_spec (Z.of_nat (length (filter (due_by now) cards))) goal).
    - left. split; [assumption|].
      rewrite add_is_notDue by done. apply due_notDue_perm.
    - right. split; [assumption | reflexivity]. }
  clearbody cand.
  assert (Hsub : cand ⊆ cards).
  { destruct Hcase as [[_ Hc]|[_ ->]].
    - intros x Hx. by rewrite <- Hc.
    - apply list_subseteq_filter. }
  assert (Hcnd : NoDup (id <$> cand)).
  { destruct Hcase as [[_ Hc]|[_ ->]].
    - by rewrite Hc.
    - eapply sublist_NoDup; [exact Hnd | apply fmap_sublist, sublist_filter]. }
  assert (Hlen : Z.min goal (Z.of_nat (length cand))
                 = Z.min goal (Z.of_nat (length cards))).
  { destruct Hcase as [[_ Hc]|[Hge ->]].
    - by rewrite Hc.
    - pose proof (length_filter (due_by now) cards). subst dueL. lia. }
  split; [|split; [|split]].
  - rewrite length_take, (Permutation_length Hp), <- Hlen. lia.
  - rewrite fmap_take. eapply sublist_NoDup; [|apply sublist_take].
    by rewrite Hp.
  - intros x Hx. apply Hsub. rewrite <- Hp. by apply (subseteq_take _ _ _ Hx).
  - intros Hmany. apply Forall_take. rewrite Hp.
    destruct Hcase as [[Hlt _]|[_ ->]]; [subst dueL; lia|].
    apply Forall_forall. intros c Hc.
    by apply list_elem_of_filter in Hc as [Hc _].
Qed.

Example buildStudyQueue_reordered :
  fst (buildStudyQueue [card0; card1; card2] 3 world1) = Some [card2; card1; card0].
Proof. vm_compute. reflexivity. Qed.

Lemma random_ok_world0 : random_ok world0.
Proof.
  intros [|[|n]] _; simpl; split; lra.
Defined.

Lemma buildStudyQueue_length_nodup_due_witness :
  NoDup (id <$> [card0; card1; card2]) /\ (1 <= 2)%Z /\ random_ok world0 /\
  exists q,
    fst (buildStudyQueue [card0; card1; card2] 2 world0) = Some q /\
    Z.of_nat (length q) = Z.min 2 3 /\
    NoDup (id <$> q) /\
    Forall (due_by 1700000000000) q.
Proof.
  assert (Hnd : NoDup (id <$> [card0; card1; card2])).
  { apply (bool_decide_unpack _). vm_compute. exact I. }
  assert (Hg : (1 <= 2)%Z) by lia.
  split; [exact Hnd|]. split; [exact Hg|]. split; [exact random_ok_world0|].
  destruct (buildStudyQueue_length_nodup_due [card0; card1; card2] 2 world0
              Hnd Hg random_ok_world0) as (q & Hq & Hlen & Hq_nd & _ & Hdue).
  exists q. split; [exact Hq|]. split; [exact Hlen|]. split; [exact Hq_nd|].
  apply Hdue. vm_compute. discriminate.
Defined.

(** ** Strings and sample runs of the database *)

Example trim_house : trim "  the house
" = "the house".
Proof. reflexivity. Qed.

Example trim_blank : trim "   " = "".
Proof. reflexivity. Qed.

Example deleteDeck_db0 :
  deleteDeck None db0 "d0" = (mkStore (<["d1" := deck1]> ∅) (<["c3" := card3]> ∅), Ok tt).
Proof. vm_compute. reflexivity. Qed.

(** The fault hits the second [cur.delete()]: nothing of the deletion shows. *)
Example deleteDeck_db0_fault :
  deleteDeck (Some 4%nat) db0 "d0" = (db0, Err DOMException).
Proof. vm_compute. reflexivity. Qed.

Example getCardsByDeck_db0 :
  getCardsByDeck None db0 "d0" = (db0, Ok [card0; card1; card2]).
Proof. vm_compute. reflexivity. Qed.

(** ** Cascading delete *)

Lemma insert_by_perm {A} (leb : A -> A -> bool) x l : insert_by leb x l ≡ₚ x :: l.
Proof.
  induction l as [|y l IH]; simpl; [reflexivity|].
  destruct (leb x y); [reflexivity|].
  rewrite IH. apply perm_swap.
Qed.

Lemma sort_by_perm {A} (leb : A -> A -> bool) l : sort_by leb l ≡ₚ l.
Proof.
  induction l as [|x l IH]; simpl; [reflexivity|].
  unfold sort_by in *. simpl. rewrite insert_by_perm. by rewrite IH.
Qed.

Lemma elem_of_by_deck (s : Store) (deck key : string) (c : Card) :
  (key, c) ∈ by_deck s deck <-> cards s !! key = Some c /\ deckId c = deck.
Proof.
  unfold by_deck. rewrite sort_by_perm, list_elem_of_filter, elem_of_map_to_list.
  simpl. tauto.
Qed.

Lemma elem_of_by_deck_keys (s : Store) (deck key : string) :
  key ∈ (by_deck s deck).*1 <-> exists c, cards s !! key = Some c /\ deckId c = deck.
Proof.
  rewrite list_elem_of_fmap. split.
  - intros ([k c] & -> & Hin). exists c. by apply elem_of_by_deck in Hin.
  - intros (c & Hc). exists (key, c). split; [reflexivity|].
    by apply elem_of_by_deck.
Qed.

Lemma lookup_foldl_delete (m : gmap string Card) (keys : list string) (i : string) :
  foldl (fun m key => delete key m) m keys !! i
  = if decide (i ∈ keys) then None else m !! i.
Proof.
  revert m. induction keys as [|key keys IH]; intros m; cbn [foldl].
  - by rewrite decide_False by apply not_elem_of_nil.
  - rewrite IH. destruct (decide (i ∈ keys)) as [Hin|Hnin].
    + rewrite decide_True; [reflexivity | by right].
    + destruct (decide (i = key)) as [->|Hne].
      * rewrite decide_True by left. apply lookup_delete_eq.
      * rewrite decide_False by (rewrite elem_of_cons; tauto).
        by apply lookup_delete_ne.
Qed.

Lemma cursor_deletes_deck (db : Store) (deck : string) :
  foldl (fun m key => delete key m) (cards db) (by_deck db deck).*1
  = filter (fun kc => deckId kc.2 <> deck) (cards db).
Proof.
  apply map_eq. intros i. rewrite lookup_foldl_delete.
  destruct (decide (i ∈ (by_deck db deck).*1)) as [Hin|Hnin].
  - apply elem_of_by_deck_keys in Hin as (c & Hc & Hd).
    symmetry. apply map_lookup_filter_None. right. intros c' Hc'.
    simpl. rewrite Hc in Hc'. injection Hc' as <-. tauto.
  - destruct (cards db !! i) as [c|] eqn:Hc.
    + symmetry. apply map_lookup_filter_Some. split; [exact Hc|]. simpl.
      intros Hd. apply Hnin, elem_of_by_deck_keys. eauto.
    + symmetry. apply map_lookup_filter_None. by left.
Qed.

Lemma cursor_loop_outcome (keys : list string) (flt : Fault) (work : Store) (k : nat) :
  cursor_loop keys flt work k
    = Done tt (mkStore (decks work)
                       (foldl (fun m key => delete key m) (cards work) keys))
           (k + 2 * length keys)
  \/ (cursor_loop keys flt work k = Aborted /\ flt <> None).
Proof.
  revert work k. induction keys as [|key keys IH]; intros work k.
  - left. simpl. unfold tx_ret. destruct work. f_equal. lia.
  - simpl. unfold tx_bind, cursor_delete, cards_delete, cursor_continue, request.
    destruct (decide (flt = Some k)) as [->|_]; [right; done|].
    destruct (decide (flt = Some (S k))) as [->|_]; [right; done|].
    simpl. destruct (IH (mkStore (decks work) (delete key (cards work))) (S (S k)))
      as [->|[-> ?]]; [left|right; done].
    simpl. f_equal. lia.
Qed.

Lemma deleteDeck_outcome (flt : Fault) (db : Store) (deck : string) :
  (deleteDeck flt db deck = (deck_deleted db deck, Ok tt) \/
   deleteDeck flt db deck = (db, Err DOMException)) /\
  (flt = None -> deleteDeck flt db deck = (deck_deleted db deck, Ok tt)).
Proof.
  unfold deleteDeck, transaction, tx_bind, decks_delete,
    by_deck_openCursor, request.
  destruct (decide (flt = Some 0%nat)) as [->|_]; [split; [by right|done]|].
  destruct (decide (flt = Some 1%nat)) as [->|_]; [split; [by right|done]|].
  match goal with |- context [cursor_loop ?ks flt ?wk ?n] =>
    destruct (cursor_loop_outcome ks flt wk n) as [->|[-> Hf]] end.
  - simpl. rewrite (cursor_deletes_deck (mkStore _ (cards db))).
    fold (deck_deleted db deck).
    destruct (decide (flt = Some _)) as [->|Hn]; [split; [by right|done]|].
    split; [by left|done].
  - split; [by right|done].
Qed.

(** C1. Whatever storage fault is injected, [deleteDeck(id)] either
    completes, and the database is then exactly the former one without the
    deck and without any card whose [deckId] is [id], or it is rejected and
    the database is exactly as before: no partial deletion shows.  Without
    a fault it completes; after completion no card with [deckId = id]
    remains, the deck record is gone and the cards of other decks are all
    still there. *)
Theorem deleteDeck_cascade_all_or_nothing (flt : Fault) (db : Store) (deck : string) :
  (deleteDeck flt db deck = (deck_deleted db deck, Ok tt) \/
   deleteDeck flt db deck = (db, Err DOMException)) /\
  deleteDeck None db deck = (deck_deleted db deck, Ok tt) /\
  (forall key c, cards (deck_deleted db deck) !! key = Some c -> deckId c <> deck) /\
  decks (deck_deleted db deck) !! deck = None /\
  (forall key c, cards db !! key = Some c -> deckId c <> deck ->
                 cards (deck_deleted db deck) !! key = Some c).
Proof.
  split; [apply deleteDeck_outcome|].
  split; [by apply deleteDeck_outcome|].
  split; [|split].
  - intros key c Hc. unfold deck_deleted in Hc. simpl in Hc.
    by apply map_lookup_filter_Some in Hc as [_ Hc].
  - simpl. apply lookup_delete_eq.
  - intros key c Hc Hd. simpl. by apply map_lookup_filter_Some.
Qed.

(** ** Single-record operations *)

Lemma Store_eta (db : Store) : mkStore (decks db) (cards db) = db.
Proof. by destruct db. Qed.

(** The operations keep the records under their own ids, whatever fault is
    injected. *)
Lemma keyPath_ok_put (db : Store) (c : Card) :
  keyPath_ok db -> keyPath_ok (mkStore (decks db) (<[id c := c]> (cards db))).
Proof. intros H. unfold keyPath_ok. simpl. by apply map_Forall_insert_2. Qed.

Lemma keyPath_ok_delete (db : Store) (key : string) :
  keyPath_ok db -> keyPath_ok (mkStore (decks db) (delete key (cards db))).
Proof. intros H. unfold keyPath_ok. simpl. by apply map_Forall_delete. Qed.

Lemma putCard_keyPath_ok (flt : Fault) (db : Store) (card : Card) :
  keyPath_ok db -> keyPath_ok (fst (putCard flt db card)).
Proof.
  intros H. unfold putCard, transaction, cards_put, request.
  destruct (decide (flt = Some 0%nat)); [exact H|].
  destruct (decide (flt = Some 1%nat)); [exact H|].
  by apply keyPath_ok_put.
Qed.

Lemma deleteCard_keyPath_ok (flt : Fault) (db : Store) (cardId : string) :
  keyPath_ok db -> keyPath_ok (fst (deleteCard flt db cardId)).
Proof.
  intros H. unfold deleteCard, transaction, cards_delete, request.
  destruct (decide (flt = Some 0%nat)); [exact H|].
  destruct (decide (flt = Some 1%nat)); [exact H|].
  by apply keyPath_ok_delete.
Qed.

Lemma updateCard_keyPath_ok (flt : Fault) (db : Store) (cardId : string) (fields : Fields) :
  keyPath_ok db -> keyPath_ok (fst (updateCard flt db cardId fields)).
Proof.
  intros H. unfold updateCard, transaction, tx_bind, cards_get, request.
  destruct (decide (flt = Some 0%nat)); [exact H|].
  destruct (cards db !! cardId) as [c|].
  - unfold cards_put, request, tx_ret.
    destruct (decide (flt = Some 1%nat)); [exact H|].
    destruct (decide (flt = Some 2%nat)); [exact H|].
    simpl. apply (keyPath_ok_put db (mkCard (id c) _ _ _ _ _ _ _ _ _) H).
  - unfold tx_throw. by destruct (decide (flt = Some 1%nat)).
Qed.

Lemma deleteDeck_keyPath_ok (flt : Fault) (db : Store) (deck : string) :
  keyPath_ok db -> keyPath_ok (fst (deleteDeck flt db deck)).
Proof.
  intros H. destruct (deleteDeck_outcome flt db deck) as [[-> | ->] _]; [|exact H].
  intros key c Hc. simpl in Hc.
  apply map_lookup_filter_Some in Hc as [Hc _]. by apply H.
Qed.

(** C10. Deleting a card id that is not in the store succeeds (when no
    storage fault is injected) and is never rejected with an [Error] of the
    wrapper; in every case both collections are left exactly as they
    were. *)
Theorem deleteCard_absent_noop (flt : Fault) (db : Store) (cardId : string) :
  cards db !! cardId = None ->
  deleteCard None db cardId = (db, Ok tt) /\
  fst (deleteCard flt db cardId) = db /\
  (forall msg, snd (deleteCard flt db cardId) <> Err (Error msg)).
Proof.
  intros Habs.
  unfold deleteCard, transaction, cards_delete, request.
  rewrite (delete_id _ _ Habs), Store_eta.
  split; [reflexivity|].
  destruct (decide (flt = Some 0%nat)); [split; [reflexivity | discriminate]|].
  destruct (decide (flt = Some 1%nat)); split; (reflexivity || discriminate).
Qed.

Lemma deleteCard_absent_noop_witness :
  cards db0 !! "zz" = None /\ deleteCard None db0 "zz" = (db0, Ok tt).
Proof.
  assert (H : cards db0 !! "zz" = None) by (vm_compute; reflexivity).
  split; [exact H|].
  exact (proj1 (deleteCard_absent_noop None db0 "zz" H)).
Defined.

(** C5 (as stated, refuted): [putCard] on a card whose id is not in the
    store is not rejected and does change the store: the card is added. *)
Lemma putCard_inserts_unknown_id :
  ~ (forall (db : Store) (card : Card),
       cards db !! id card = None ->
       exists e, putCard None db card = (db, Err e)).
Proof.
  intros H.
  assert (H0 : cards (mkStore ∅ ∅) !! id card0 = None) by (vm_compute; reflexivity).
  destruct (H (mkStore ∅ ∅) card0 H0) as [e He].
  vm_compute in He. discriminate He.
Qed.

(** C5 (amended). [putCard(card)] writes the record under [card.id] whether
    or not that id exists: when the transaction completes (as it does
    without a storage fault) the card is stored as given, replacing the
    former record of that id if there was one, and every other record is
    untouched; otherwise the promise is rejected with the storage failure
    and the database is as before.  It is never rejected with an [Error]
    of the wrapper such as "not found". *)
Theorem putCard_upsert (flt : Fault) (db : Store) (card : Card) :
  (putCard flt db card
     = (mkStore (decks db) (<[id card := card]> (cards db)), Ok tt) \/
   putCard flt db card = (db, Err DOMException)) /\
  putCard None db card
    = (mkStore (decks db) (<[id card := card]> (cards db)), Ok tt) /\
  cards (fst (putCard None db card)) !! id card = Some card /\
  (forall key, key <> id card ->
     cards (fst (putCard None db card)) !! key = cards db !! key) /\
  decks (fst (putCard None db card)) = decks db.
Proof.
  unfold putCard, transaction, cards_put, request.
  split; [|split; [reflexivity|split; [|split]]].
  - destruct (decide (flt = Some 0%nat)); [by right|].
    destruct (decide (flt = Some 1%nat)); [by right | by left].
  - simpl. apply lookup_insert_eq.
  - intros key Hne. simpl. by apply lookup_insert_ne.
  - reflexivity.
Qed.

(** C9. [updateCard(id, fields)] on the id of a stored card replaces the
    six text fields by the (trimmed) values of [fields] and stores the
    record under the same id, with [srs], [id], [deckId] and [createdAt] as
    they were and every other record untouched; on an unknown id it is
    rejected with "Card not found" and the store is unchanged. *)
Theorem updateCard_frame (db : Store) (cardId : string) (fields : Fields) :
  keyPath_ok db ->
  match cards db !! cardId with
  | Some c =>
      exists c',
        updateCard None db cardId fields
          = (mkStore (decks db) (<[cardId := c']> (cards db)), Ok c') /\
        english c' = trim (f_english fields) /\
        german c' = trim (f_german fields) /\
        article c' = trim (or_empty (f_article fields)) /\
        plural c' = trim (or_empty (f_plural fields)) /\
        example c' = trim (or_empty (f_example fields)) /\
        notes c' = trim (or_empty (f_notes fields)) /\
        srs c' = srs c /\ id c' = id c /\ deckId c' = deckId c /\
        createdAt c' = createdAt c
  | None =>
      updateCard None db cardId fields = (db, Err (Error "Card not found"))
  end.
Proof.
  intros Hkey.
  unfold updateCard, transaction, tx_bind, cards_get, request. simpl.
  destruct (cards db !! cardId) as [c|] eqn:Hc.
  - unfold tx_bind, cards_put, request, tx_ret. simpl.
    pose proof (Hkey cardId c Hc) as Hid. simpl in Hid. rewrite Hid.
    eexists. split; [reflexivity|]. simpl. repeat split; reflexivity.
  - reflexivity.
Qed.

Lemma keyPath_ok_db0 : keyPath_ok db0.
Proof. apply (bool_decide_unpack _). vm_compute. exact I. Defined.

Lemma updateCard_frame_witness :
  keyPath_ok db0 /\
  exists c',
    updateCard None db0 "c1" fields0
      = (mkStore (decks db0) (<["c1" := c']> (cards db0)), Ok c') /\
    english c' = "the home" /\ article c' = "das" /\ srs c' = srs card1.
Proof.
  split; [exact keyPath_ok_db0|].
  pose proof (updateCard_frame db0 "c1" fields0 keyPath_ok_db0) as H.
  change (cards db0 !! "c1") with (Some card1) in H.
  destruct H as (c' & Hrun & He & _ & Ha & _ & _ & _ & Hs & _).
  exists c'. split; [exact Hrun|]. split; [exact He|]. split; [exact Ha | exact Hs].
Defined.

Example updateCard_unknown :
  updateCard None db0 "zz" fields0 = (db0, Err (Error "Card not found")).
Proof. vm_compute. reflexivity. Qed.

(** ** Creating a card *)

Example addCard_blank_orphan :
  fst (addCard None (mkStore ∅ ∅) "no-such-deck" blank_fields world0)
  = (mkStore ∅ (<["8-18bcfe56800" :=
                   mkCard "8-18bcfe56800" "no-such-deck" "" "" "" "" "" ""
                          1700000000001 (mkSRS 1700000000002 0 2.3 0 0)]> ∅),
     Ok (mkCard "8-18bcfe56800" "no-such-deck" "" "" "" "" "" ""
                1700000000001 (mkSRS 1700000000002 0 2.3 0 0))).
Proof. vm_compute. reflexivity. Qed.

(** C4 (as stated, refuted): [addCard] is not rejected when [english] or
    [german] is blank, nor when [deckId] names no deck: with both texts
    blank and no deck at all in the store, the card is created. *)
Lemma addCard_no_validation :
  ~ (forall (db : Store) (deckId : string) (fields : Fields) (w : World),
       trim (f_english fields) = "" \/ trim (f_german fields) = "" \/
       decks db !! deckId = None ->
       exists e, snd (fst (addCard None db deckId fields w)) = Err e).
Proof.
  intros H.
  destruct (H (mkStore ∅ ∅) "no-such-deck" blank_fields world0) as [e He].
  - left. reflexivity.
  - vm_compute in He. discriminate He.
Qed.

Lemma uid_world (w : World) :
  snd (uid w)
  = mkWorld (clock w) (S (ticks w)) (random w) (S (draws w)) (faults w) (txs w)
            (num_hex w).
Proof. reflexivity. Qed.

(** C4 (amended). [addCard(deckId, fields)] checks neither the texts nor
    the deck.  Whenever the generated id is not taken and no storage fault
    is injected it stores and returns a new card carrying that id, the given
    [deckId], the trimmed texts and the review state [{ due = now,
    intervalDays = 0, ease = 2.3, reps = 0, lapses = 0 }], [now] being the
    clock reading taken by [defaultSRS]; the decks and the other cards are
    untouched.  When it is rejected, it is with the storage failure, never
    with a validation or not-found error, and the database is as before. *)
Theorem addCard_creates_card (flt : Fault) (db : Store) (deckId0 : string)
    (fields : Fields) (w : World) :
  cards db !! fst (uid w) = None ->
  (exists card,
     fst (addCard None db deckId0 fields w)
       = (mkStore (decks db) (<[id card := card]> (cards db)), Ok card) /\
     id card = fst (uid w) /\
     deckId card = deckId0 /\
     english card = trim (f_english fields) /\
     german card = trim (f_german fields) /\
     article card = trim (or_empty (f_article fields)) /\
     plural card = trim (or_empty (f_plural fields)) /\
     example card = trim (or_empty (f_example fields)) /\
     notes card = trim (or_empty (f_notes fields)) /\
     createdAt card = clock w (S (ticks w)) /\
     srs card = mkSRS (inject_Z (clock w (S (S (ticks w))))) 0 2.3 0 0) /\
  (forall e, snd (fst (addCard flt db deckId0 fields w)) = Err e ->
             e = DOMException /\ fst (fst (addCard flt db deckId0 fields w)) = db).
Proof.
  intros Hfresh. split.
  - unfold addCard, bind, ret, defaultSRS.
    destruct (uid w) as [i w1] eqn:Hu.
    pose proof (uid_world w) as Hw1. rewrite Hu in Hw1. simpl in Hw1. subst w1.
    simpl in Hfresh. unfold Date_now. simpl.
    unfold transaction, tx_bind, cards_add, request, tx_ret. simpl.
    rewrite Hfresh. simpl.
    match goal with |- context [(_, Ok ?c) = _] => exists c end.
    simpl. repeat split; reflexivity.
  - intros e. unfold addCard, bind, ret, defaultSRS.
    destruct (uid w) as [i w1]. unfold Date_now. simpl.
    unfold transaction, tx_bind, cards_add, request, tx_ret. simpl.
    destruct (decide (flt = Some 0%nat)); [by intros [= <-]|].
    destruct (cards db !! i); [by intros [= <-]|].
    destruct (decide (flt = Some 1%nat)); [by intros [= <-] | discriminate].
Qed.

Lemma addCard_creates_card_witness :
  cards db0 !! fst (uid world0) = None /\
  exists card,
    fst (addCard None db0 "d0" fields0 world0)
      = (mkStore (decks db0) (<[id card := card]> (cards db0)), Ok card) /\
    srs card = mkSRS 1700000000002 0 2.3 0 0.
Proof.
  assert (H : cards db0 !! fst (uid world0) = None) by (vm_compute; reflexivity).
  split; [exact H|].
  destruct (addCard_creates_card None db0 "d0" fields0 world0 H)
    as [(card & Hrun & _ & _ & _ & _ & _ & _ & _ & _ & _ & Hs) _].
  exists card. split; [exact Hrun | exact Hs].
Defined.

(** ** Study session *)

Section SessionFacts.

Variable Dom : Type.
Variable set_textContent : string -> string -> Dom -> Dom.
Variable setStudyVisible : bool -> Dom -> Dom.
Variable renderCurrentCard : Study -> Dom -> Dom.
Variable showCardsPanel : option string -> list Deck -> Dom -> Dom.
Variable renderCardList : list Card -> Dom -> M Dom.
Variable renderStudyStats : option string -> list Card -> Dom -> M Dom.

Local Abbreviation gradeCurrent_ :=
  (gradeCurrent Dom set_textContent setStudyVisible renderCurrentCard
                showCardsPanel renderCardList renderStudyStats).

(** C8. In gender mode, while no answer has been given ([genderAnswered] is
    false), [gradeCurrent] changes nothing of the session ([current],
    [queue], [done] and every other field of [study]), nothing of the
    database and nothing of the other module variables; it neither reads the
    clock nor opens a transaction, and its promise is fulfilled. *)
Theorem gradeCurrent_gender_unanswered (grade : string) (a : App Dom) (w : World) :
  mode (study a) = "gender" ->
  genderAnswered (study a) = false ->
  study (fst (fst (gradeCurrent_ grade a w))) = study a /\
  db (fst (fst (gradeCurrent_ grade a w))) = db a /\
  selectedDeckId (fst (fst (gradeCurrent_ grade a w))) = selectedDeckId a /\
  selectedDeckCards (fst (fst (gradeCurrent_ grade a w))) = selectedDeckCards a /\
  snd (fst (gradeCurrent_ grade a w)) = Ok tt /\
  snd (gradeCurrent_ grade a w) = w.
Proof.
  intros Hmode Hans. unfold gradeCurrent.
  destruct (active (study a)); [|repeat split; reflexivity].
  destruct (current (study a)) as [c|]; [|repeat split; reflexivity].
  rewrite Hmode, Hans. simpl. repeat split; reflexivity.
Qed.

End SessionFacts.

Lemma gradeCurrent_gender_unanswered_witness :
  mode (study app0) = "gender" /\
  genderAnswered (study app0) = false /\
  fst (gradeCurrent0 "good" app0 world0)
    = (mkApp Page db0 [deck0; deck1] (Some "d0") [card0; card1; card2] study0
             [("#genderResult", "Pick der/die/das first.")],
       Ok tt) /\
  study (fst (fst (gradeCurrent0 "good" app0 world0))) = study app0 /\
  db (fst (fst (gradeCurrent0 "good" app0 world0))) = db app0.
Proof.
  split; [reflexivity|]. split; [reflexivity|]. split; [reflexivity|].
  destruct (gradeCurrent_gender_unanswered Page page_set page_visible page_card
              (fun _ _ d => d) (fun _ d => ret d) (fun _ _ d => ret d)
              "good" app0 world0 eq_refl eq_refl) as (Hs & Hd & _).
  split; [exact Hs | exact Hd].
Defined.

(** Once an answer is given the same call does grade: the card is
    rescheduled and stored, [done] advances and the next card is shown. *)
Example gradeCurrent_after_answer :
  let r := fst (fst (gradeCurrent0 "good" (onGenderChoice0 "das" app0) world0)) in
  genderCorrect (study (onGenderChoice0 "das" app0)) = true /\
  done (study r) = 1 /\ current (study r) = Some card2 /\ queue (study r) = [] /\
  active (study r) = true /\
  (reps ∘ srs) <$> (cards (db r) !! "c0") = Some 1.
Proof. vm_compute. repeat split; reflexivity. Qed.

(** With a goal of one the session ends at the first grade. *)
Example gradeCurrent_completes :
  let st := mkStudy true "flash" (Some "d1") 1 0 [card2] (Some card0)
                    false false false in
  let a := mkApp Page db0 [deck0; deck1] (Some "d0") [] st [] in
  let r := fst (fst (gradeCurrent0 "again" a world0)) in
  active (study r) = false /\ done (study r) = 1 /\
  dom r = [("#footerStatus", "Session complete."); ("#studyArea", "hidden")].
Proof. vm_compute. repeat split; reflexivity. Qed.

(* ===================================================================== *)
(** * Further properties *)
(* ===================================================================== *)

(** ** SRS: what every transition keeps *)

Lemma Math_max_lb_l (a b : Q) : (a <= Math_max a b)%Q.
Proof. unfold Math_max. destruct (Qlt_le_dec a b); lra. Qed.

Lemma Math_max_lb_r (a b : Q) : (b <= Math_max a b)%Q.
Proof. unfold Math_max. destruct (Qlt_le_dec a b); lra. Qed.

Lemma Qmult_grows (x e : Q) : (0 <= x)%Q -> (1 <= e)%Q -> (x <= x * e)%Q.
Proof.
  intros Hx He.
  assert (H : (0 <= x * (e - 1))%Q) by (apply Qmult_le_0_compat; lra).
  lra.
Qed.

(** X1. The review state made by [defaultSRS] satisfies [srs_ok] (ease in
    [1.3, 3.0], [reps], [lapses] and [intervalDays] not negative, and an
    interval of at most a quarter of a day while [reps] is 0), and
    [applySRS] keeps it, whatever the grade string. *)
Theorem srs_ok_invariant (card : Card) (grade : string) (w : World) :
  srs_ok (srs card) ->
  srs_ok (srs (fst (applySRS card grade w))) /\ srs_ok (fst (defaultSRS w)).
Proof.
  intros (He & Hr & Hl & Hi & Hz). split.
  - unfold applySRS, bind, ret. simpl.
    destruct (String.eqb grade "again"); [|destruct (String.eqb grade "good");
      [|destruct (String.eqb grade "easy")]]; simpl.
    + repeat split; simpl; try (apply clamp_bounds; lra); try lia; try lra.
    + unfold srs_ok, ease_in_range. simpl.
      split; [apply clamp_bounds; lra|]. split; [lia|]. split; [exact Hl|].
      destruct (Z.eqb_spec (reps (srs card)) 0) as [E|E].
      * split; [lra | intros; lia].
      * split; [|intros; lia].
        eapply Qle_trans; [|apply Math_max_lb_l]. lra.
    + unfold srs_ok, ease_in_range. simpl.
      split; [apply clamp_bounds; lra|]. split; [lia|]. split; [exact Hl|].
      destruct (Z.eqb_spec (reps (srs card)) 0) as [E|E].
      * split; [lra | intros; lia].
      * split; [|intros; lia].
        eapply Qle_trans; [|apply Math_max_lb_l]. lra.
    + repeat split; try apply He; assumption.
  - unfold defaultSRS, bind, ret, srs_ok, ease_in_range. simpl.
    repeat split; try lra; try lia.
Qed.

Lemma srs_ok_srs0 : srs_ok srs0.
Proof.
  unfold srs_ok, ease_in_range, srs0. simpl.
  repeat split; try lra; try lia.
Defined.

Lemma srs_ok_invariant_witness :
  srs_ok (srs card0) /\ srs_ok (srs (fst (applySRS card0 "easy" world0))).
Proof.
  split; [exact srs_ok_srs0|].
  exact (proj1 (srs_ok_invariant card0 "easy" world0 srs_ok_srs0)).
Defined.

(** X2. After a transition with one of the three grades, read at clock
    time [now], the card is due at [now] plus its new interval in days, the
    new interval is at least a quarter of a day (a day for "good", two days
    for "easy"), and so the card is not due at [now] any more. *)
Theorem applySRS_due_in_future (card : Card) (grade : string) (w : World) :
  known_grade grade ->
  (due (srs (fst (applySRS card grade w)))
     == inject_Z (clock w (ticks w))
        + intervalDays (srs (fst (applySRS card grade w))) * 86400000)%Q /\
  (0.25 <= intervalDays (srs (fst (applySRS card grade w))))%Q /\
  (grade = "good" -> (1 <= intervalDays (srs (fst (applySRS card grade w))))%Q) /\
  (grade = "easy" -> (2 <= intervalDays (srs (fst (applySRS card grade w))))%Q) /\
  ~ due_by (clock w (ticks w)) (fst (applySRS card grade w)).
Proof.
  intros Hg.
  assert (Hgood : forall x, (1 <= if (reps (srs card) =? 0)%Z then 1 else Math_max 1 x)%Q).
  { intros x. destruct (reps (srs card) =? 0)%Z; [lra | apply Math_max_lb_l]. }
  assert (Heasy : forall x, (2 <= if (reps (srs card) =? 0)%Z then 2 else Math_max 2 x)%Q).
  { intros x. destruct (reps (srs card) =? 0)%Z; [lra | apply Math_max_lb_l]. }
  unfold due_by.
  destruct Hg as [-> | [-> | ->]]; unfold applySRS, bind, ret, days_ms; simpl.
  - repeat split; try lra; try discriminate.
  - match goal with |- context [if _ then 1%Q else Math_max 1 ?x] =>
      specialize (Hgood x);
      set (I := if (reps (srs card) =? 0)%Z then 1%Q else Math_max 1 x) in * end.
    repeat split; try lra; try discriminate.
  - match goal with |- context [if _ then 2%Q else Math_max 2 ?x] =>
      specialize (Heasy x);
      set (I := if (reps (srs card) =? 0)%Z then 2%Q else Math_max 2 x) in * end.
    repeat split; try lra; try discriminate.
Qed.

Lemma applySRS_due_in_future_witness :
  known_grade "good" /\ ~ due_by (clock world0 (ticks world0)) (fst (applySRS card1 "good" world0)).
Proof.
  assert (H : known_grade "good") by (right; left; reflexivity).
  split; [exact H|].
  exact (proj2 (proj2 (proj2 (proj2 (applySRS_due_in_future card1 "good" world0 H))))).
Defined.

(** X3. On a review state satisfying [srs_ok], "good" and "easy" never
    shorten the interval and never lower the ease, add one to [reps] and
    leave [lapses]; "again" never raises the ease. *)
Theorem applySRS_monotone (card : Card) (grade : string) (w : World) :
  srs_ok (srs card) ->
  (grade = "good" \/ grade = "easy" ->
     (intervalDays (srs card) <= intervalDays (srs (fst (applySRS card grade w))))%Q /\
     (ease (srs card) <= ease (srs (fst (applySRS card grade w))))%Q /\
     reps (srs (fst (applySRS card grade w))) = reps (srs card) + 1 /\
     lapses (srs (fst (applySRS card grade w))) = lapses (srs card)) /\
  (grade = "again" ->
     (ease (srs (fst (applySRS card grade w))) <= ease (srs card))%Q).
Proof.
  intros ([He1 He2] & Hr & Hl & Hi & Hz).
  assert (Hup : forall d, (0 <= d)%Q -> (d <= 1.7)%Q ->
            (ease (srs card) <= clamp (ease (srs card) + d) 1.3 3.0)%Q).
  { intros d Hd0 Hd1. unfold clamp, Math_max, Math_min.
    destruct (Qlt_le_dec (ease (srs card) + d) 3.0);
      destruct (Qlt_le_dec 1.3 _); lra. }
  split.
  - intros [-> | ->]; unfold applySRS, bind, ret; simpl.
    + split; [|split; [apply Hup; lra | split; reflexivity]].
      destruct (Z.eqb_spec (reps (srs card)) 0) as [E|E]; [specialize (Hz E); lra|].
      eapply Qle_trans; [|apply Math_max_lb_r].
      apply Qmult_grows; [exact Hi|].
      eapply Qle_trans; [|apply (clamp_bounds _ 1.3 3.0); lra]. lra.
    + split; [|split; [apply Hup; lra | split; reflexivity]].
      destruct (Z.eqb_spec (reps (srs card)) 0) as [E|E]; [specialize (Hz E); lra|].
      eapply Qle_trans; [|apply Math_max_lb_r].
      pose proof (proj1 (clamp_bounds (ease (srs card) + 0.15) 1.3 3.0 ltac:(lra))) as Hc.
      set (e := clamp (ease (srs card) + 0.15) 1.3 3.0) in *.
      assert (H1 : (intervalDays (srs card) <= intervalDays (srs card) * e)%Q)
        by (apply Qmult_grows; [exact Hi | lra]).
      assert (H2 : (intervalDays (srs card) * e <= intervalDays (srs card) * e * 1.3)%Q)
        by (apply Qmult_grows; [|lra]; apply Qmult_le_0_compat; lra).
      lra.
  - intros ->. unfold applySRS, bind, ret. simpl.
    unfold clamp, Math_max, Math_min.
    destruct (Qlt_le_dec (ease (srs card) - 0.20) 3.0);
      destruct (Qlt_le_dec 1.3 _); lra.
Qed.

Lemma applySRS_monotone_witness :
  srs_ok (srs card0) /\
  (intervalDays (srs card0) <= intervalDays (srs (fst (applySRS card0 "good" world0))))%Q.
Proof.
  split; [exact srs_ok_srs0|].
  exact (proj1 (proj1 (applySRS_monotone card0 "good" world0 srs_ok_srs0)
                  (or_introl eq_refl))).
Defined.

Lemma applySRS_id (card : Card) (grade : string) (w : World) :
  id (fst (applySRS card grade w)) = id card.
Proof.
  unfold applySRS, bind, ret. simpl.
  repeat (destruct (String.eqb grade _); [reflexivity|]). reflexivity.
Qed.

(** X4. [applySRS] touches nothing of a card but [srs], whatever the grade;
    with a grade string other than the three it knows it leaves the card
    exactly as it was, without any error. *)
Theorem applySRS_frame (card : Card) (grade : string) (w : World) :
  id (fst (applySRS card grade w)) = id card /\
  deckId (fst (applySRS card grade w)) = deckId card /\
  english (fst (applySRS card grade w)) = english card /\
  german (fst (applySRS card grade w)) = german card /\
  article (fst (applySRS card grade w)) = article card /\
  plural (fst (applySRS card grade w)) = plural card /\
  example (fst (applySRS card grade w)) = example card /\
  notes (fst (applySRS card grade w)) = notes card /\
  createdAt (fst (applySRS card grade w)) = createdAt card /\
  (~ known_grade grade -> fst (applySRS card grade w) = card).
Proof.
  unfold applySRS, bind, ret, known_grade. simpl.
  destruct (String.eqb_spec grade "again") as [->|H1]; [repeat split; tauto|].
  destruct (String.eqb_spec grade "good") as [->|H2]; [repeat split; tauto|].
  destruct (String.eqb_spec grade "easy") as [->|H3]; [repeat split; tauto|].
  repeat split; reflexivity.
Qed.

(** X29. A lapse restarts the schedule: whatever the review state was, the
    first "good" after an "again" gives an interval of one day and the first
    "easy" one of two days, with [reps] at 1 and [lapses] one more than
    before the lapse; and a card fresh from [defaultSRS] gets the same
    intervals from its first "good" or "easy". *)
Theorem applySRS_restart_after_lapse (card : Card) (w : World) :
  (forall g, g = "good" \/ g = "easy" ->
     let r := (let! c1 := applySRS card "again" in applySRS c1 g) w in
     intervalDays (srs (fst r)) = (if String.eqb g "good" then 1 else 2)%Q /\
     reps (srs (fst r)) = 1 /\
     lapses (srs (fst r)) = lapses (srs card) + 1) /\
  (forall g s0, g = "good" \/ g = "easy" ->
     intervalDays (srs (fst (applySRS (set_srs card (fst (defaultSRS s0))) g w)))
       = (if String.eqb g "good" then 1 else 2)%Q).
Proof.
  split.
  - intros g [-> | ->]; unfold applySRS, bind, ret; simpl; repeat split; reflexivity.
  - intros g s0 [-> | ->]; unfold applySRS, defaultSRS, bind, ret; simpl; reflexivity.
Qed.

(** ** Queue builder: sessions that take the whole deck *)

Lemma buildStudyQueue_shape (cards : list Card) (goal : Z) (w : World) :
  NoDup (id <$> cards) -> random_ok w ->
  exists q',
    fst (buildStudyQueue cards goal w) = Some (slice0 q' goal) /\
    (((Z.of_nat (length (filter (due_by (clock w (ticks w))) cards)) < goal)%Z /\
      q' ≡ₚ cards) \/
     ((goal <= Z.of_nat (length (filter (due_by (clock w (ticks w))) cards)))%Z /\
      q' ≡ₚ filter (due_by (clock w (ticks w))) cards)).
Proof.
  intros Hnd Hw.
  unfold buildStudyQueue, bind, Date_now, ret.
  set (now := clock w (ticks w)).
  match goal with |- context [shuffle_from _ ?q ?w1] =>
    set (cand := q); destruct (shuffle_perm cand w1) as (q' & Hq' & Hp) end.
  { intros n Hn. apply Hw. exact Hn. }
  destruct (shuffle_from _ cand _) as [sh w2]. simpl in Hq'. subst sh.
  exists q'. split; [reflexivity|].
  subst cand.
  destruct (Z.ltb_spec (Z.of_nat (length (filter (due_by now) cards))) goal).
  - left. split; [assumption|]. rewrite Hp.
    rewrite add_is_notDue by done. apply due_notDue_perm.
  - right. split; [assumption | exact Hp].
Qed.

(** X5. When the goal is at least the number of cards (ids distinct,
    generator within [0, 1)), the queue is a rearrangement of the whole
    card list: every card is in it exactly once, due or not. *)
Theorem buildStudyQueue_whole_deck (cards : list Card) (goal : Z) (w : World) :
  NoDup (id <$> cards) -> (Z.of_nat (length cards) <= goal)%Z -> random_ok w ->
  exists q, fst (buildStudyQueue cards goal w) = Some q /\ q ≡ₚ cards.
Proof.
  intros Hnd Hgoal Hw.
  destruct (buildStudyQueue_shape cards goal w Hnd Hw) as (q' & Hrun & Hcase).
  assert (Hq' : q' ≡ₚ cards).
  { destruct Hcase as [[_ Hp]|[Hge Hp]]; [exact Hp|].
    rewrite Hp.
    pose proof (due_notDue_perm cards (clock w (ticks w))) as Hsplit.
    pose proof (Permutation_length Hsplit) as Hlen.
    rewrite length_app in Hlen.
    destruct (filter (due_after (clock w (ticks w))) cards) as [|c l] eqn:E.
    - by rewrite app_nil_r in Hsplit.
    - simpl in Hlen. lia. }
  exists (slice0 q' goal). split; [exact Hrun|].
  rewrite slice0_nonneg by lia.
  rewrite firstn_all2; [exact Hq'|].
  rewrite (Permutation_length Hq'). lia.
Qed.

Lemma buildStudyQueue_whole_deck_witness :
  NoDup (id <$> [card0; card1; card2]) /\
  (Z.of_nat (length [card0; card1; card2]) <= 5)%Z /\ random_ok world0 /\
  exists q, fst (buildStudyQueue [card0; card1; card2] 5 world0) = Some q /\
            q ≡ₚ [card0; card1; card2].
Proof.
  assert (Hnd : NoDup (id <$> [card0; card1; card2])).
  { apply (bool_decide_unpack _). vm_compute. exact I. }
  assert (Hg : (Z.of_nat (length [card0; card1; card2]) <= 5)%Z) by (simpl; lia).
  split; [exact Hnd|]. split; [exact Hg|]. split; [exact random_ok_world0|].
  exact (buildStudyQueue_whole_deck [card0; card1; card2] 5 world0 Hnd Hg
           random_ok_world0).
Defined.

(** ** Reading the database *)

Section sort_by_facts.
Context {A : Type} (leb : A -> A -> bool).
Hypothesis leb_total : forall x y, leb x y = true \/ leb y x = true.
Hypothesis leb_trans : forall x y z, leb x y = true -> leb y z = true -> leb x z = true.

Lemma insert_by_sorted (x : A) (l : list A) :
  StronglySorted (fun a b => leb a b = true) l ->
  StronglySorted (fun a b => leb a b = true) (insert_by leb x l).
Proof.
  induction 1 as [|y l Hs IH Hy]; simpl.
  - constructor; constructor.
  - destruct (leb x y) eqn:E.
    + constructor; [by constructor|].
      constructor; [exact E|].
      eapply Forall_impl; [exact Hy|]. intros z Hz. by eapply leb_trans.
    + constructor; [exact IH|].
      rewrite insert_by_perm. constructor; [|exact Hy].
      destruct (leb_total x y) as [H|H]; [congruence | exact H].
Qed.

Lemma sort_by_sorted (l : list A) :
  StronglySorted (fun a b => leb a b = true) (sort_by leb l).
Proof.
  induction l as [|x l IH]; [constructor|].
  unfold sort_by in *. simpl. by apply insert_by_sorted.
Qed.
End sort_by_facts.

Lemma StronglySorted_weaken {A} (R1 R2 : A -> A -> Prop) (l : list A) :
  (forall a b, R1 a b -> R2 a b) -> StronglySorted R1 l -> StronglySorted R2 l.
Proof.
  intros HR. induction 1 as [|x l Hs IH Hx]; constructor; [exact IH|].
  eapply Forall_impl; [exact Hx|]. intros y. apply HR.
Qed.

Lemma store_getAll_perm {A} (m : gmap string A) :
  store_getAll m ≡ₚ (map_to_list m).*2.
Proof. unfold store_getAll. by rewrite sort_by_perm. Qed.

Lemma read_transaction {A} (flt : Fault) (db : Store) (f : Store -> A) :
  transaction flt db (request (fun s => Some (f s, s)))
    = (db, if decide (flt = Some 0%nat) then Err DOMException
           else if decide (flt = Some 1%nat) then Err DOMException
           else Ok (f db)).
Proof.
  unfold transaction, request.
  destruct (decide (flt = Some 0%nat)); [reflexivity|].
  destruct (decide (flt = Some 1%nat)); reflexivity.
Qed.

Lemma getCardsByDeck_outcome (flt : Fault) (db : Store) (deck : string) :
  getCardsByDeck flt db deck
  = (db, if decide (flt = Some 0%nat) then Err DOMException
         else if decide (flt = Some 1%nat) then Err DOMException
         else Ok (sort_by (fun a b => (createdAt a <=? createdAt b)%Z)
                          (by_deck db deck).*2)).
Proof.
  unfold getCardsByDeck, by_deck_getAll. rewrite read_transaction.
  destruct (decide (flt = Some 0%nat)); [reflexivity|].
  destruct (decide (flt = Some 1%nat)); reflexivity.
Qed.

Lemma by_deck_records (db : Store) (deck : string) :
  (by_deck db deck).*2 ≡ₚ deck_records db deck.
Proof. unfold by_deck, deck_records. by rewrite sort_by_perm. Qed.

Lemma elem_of_deck_records (db : Store) (deck : string) (c : Card) :
  c ∈ deck_records db deck <-> exists key, cards db !! key = Some c /\ deckId c = deck.
Proof.
  unfold deck_records. rewrite list_elem_of_fmap. split.
  - intros ([k c'] & -> & Hin). apply list_elem_of_filter in Hin as [Hd Hin].
    apply elem_of_map_to_list in Hin. eauto.
  - intros (k & Hc & Hd). exists (k, c). split; [reflexivity|].
    apply list_elem_of_filter. split; [exact Hd | by apply elem_of_map_to_list].
Qed.

(** X6. [getCardsByDeck(deckId)] never changes the database.  Without a
    storage fault it returns the records whose [deckId] is the one asked
    for, each record once and no other, in ascending order of [createdAt];
    with a fault it is rejected with the storage failure. *)
Theorem getCardsByDeck_listing (flt : Fault) (db : Store) (deck : string) :
  exists l,
    getCardsByDeck None db deck = (db, Ok l) /\
    (getCardsByDeck flt db deck = (db, Ok l) \/
     getCardsByDeck flt db deck = (db, Err DOMException)) /\
    l ≡ₚ deck_records db deck /\
    (forall c, c ∈ l <-> exists key, cards db !! key = Some c /\ deckId c = deck) /\
    StronglySorted (fun a b => (createdAt a <= createdAt b)%Z) l.
Proof.
  exists (sort_by (fun a b => (createdAt a <=? createdAt b)%Z) (by_deck db deck).*2).
  split; [by rewrite getCardsByDeck_outcome|].
  split; [|split; [|split]].
  - rewrite getCardsByDeck_outcome.
    destruct (decide (flt = Some 0%nat)); [by right|].
    destruct (decide (flt = Some 1%nat)); [by right | by left].
  - rewrite sort_by_perm. apply by_deck_records.
  - intros c. rewrite sort_by_perm, by_deck_records. apply elem_of_deck_records.
  - eapply StronglySorted_weaken;
      [|apply (sort_by_sorted (fun a b => (createdAt a <=? createdAt b)%Z))].
    + intros a b H. by apply Z.leb_le.
    + intros x y. rewrite !Z.leb_le. lia.
    + intros x y z. rewrite !Z.leb_le. lia.
Qed.

(** X7. [exportAll] never changes the database; without a storage fault it
    returns version 1, the time stamp of the clock reading, and every deck
    and every card of the store, each exactly once; it is never rejected
    with anything but the storage failure. *)
Theorem exportAll_complete (toISOString : Z -> string) (flt1 flt2 : Fault)
    (db : Store) (w : World) :
  fst (fst (exportAll toISOString flt1 flt2 db w)) = db /\
  (forall e, snd (fst (exportAll toISOString flt1 flt2 db w)) = Err e ->
             e = DOMException) /\
  exists snap,
    fst (exportAll toISOString None None db w) = (db, Ok snap) /\
    version snap = 1 /\
    exportedAt snap = toISOString (clock w (ticks w)) /\
    snapshot_decks snap ≡ₚ (map_to_list (decks db)).*2 /\
    snapshot_cards snap ≡ₚ (map_to_list (cards db)).*2.
Proof.
  unfold exportAll, decks_getAll, cards_getAll.
  rewrite !read_transaction. split; [|split].
  - destruct (decide (flt1 = Some 0%nat)); [reflexivity|].
    destruct (decide (flt1 = Some 1%nat)); [reflexivity|].
    destruct (decide (flt2 = Some 0%nat)); [reflexivity|].
    destruct (decide (flt2 = Some 1%nat)); reflexivity.
  - intros e.
    destruct (decide (flt1 = Some 0%nat)); [by intros [= <-]|].
    destruct (decide (flt1 = Some 1%nat)); [by intros [= <-]|].
    destruct (decide (flt2 = Some 0%nat)); [by intros [= <-]|].
    destruct (decide (flt2 = Some 1%nat)); [by intros [= <-]|discriminate].
  - simpl.
    eexists. split; [reflexivity|]. simpl.
    split; [reflexivity|]. split; [reflexivity|].
    split; apply store_getAll_perm.
Qed.

(** X8. [getAllDecks] never changes the database and, without a storage
    fault, returns every deck of the store exactly once, whatever order the
    locale's comparison gives. *)
Theorem getAllDecks_complete (localeCompare : string -> string -> Z)
    (flt : Fault) (db : Store) :
  fst (getAllDecks localeCompare flt db) = db /\
  exists l,
    getAllDecks localeCompare None db = (db, Ok l) /\
    l ≡ₚ (map_to_list (decks db)).*2.
Proof.
  unfold getAllDecks, decks_getAll. rewrite !read_transaction. split.
  - destruct (decide (flt = Some 0%nat)); [reflexivity|].
    destruct (decide (flt = Some 1%nat)); reflexivity.
  - simpl. eexists. split; [reflexivity|].
    rewrite sort_by_perm. apply store_getAll_perm.
Qed.

(** ** Writing the database *)

Lemma wipeAll_outcome (flt : Fault) (db : Store) :
  (wipeAll flt db = (mkStore ∅ ∅, Ok tt) \/ wipeAll flt db = (db, Err DOMException)) /\
  (flt = None -> wipeAll flt db = (mkStore ∅ ∅, Ok tt)).
Proof.
  unfold wipeAll, transaction, tx_bind, decks_clear, cards_clear, request.
  destruct (decide (flt = Some 0%nat)) as [->|_]; [split; [by right|done]|].
  destruct (decide (flt = Some 1%nat)) as [->|_]; [split; [by right|done]|].
  simpl.
  destruct (decide (flt = Some 2%nat)) as [->|_]; [split; [by right|done]|].
  split; [by left|done].
Qed.

(** X9. [wipeAll] clears both collections or nothing: whatever storage
    fault is injected, either it completes and the store holds no deck and
    no card, or it is rejected and the store is exactly as before (in
    particular never decks cleared with the cards left).  Without a fault
    it completes. *)
Theorem wipeAll_all_or_nothing (flt : Fault) (db : Store) :
  (wipeAll flt db = (mkStore ∅ ∅, Ok tt) \/ wipeAll flt db = (db, Err DOMException)) /\
  wipeAll None db = (mkStore ∅ ∅, Ok tt).
Proof.
  split; [apply wipeAll_outcome | by apply wipeAll_outcome].
Qed.

Lemma deleteCard_outcome (flt : Fault) (db : Store) (cardId : string) :
  (deleteCard flt db cardId = (mkStore (decks db) (delete cardId (cards db)), Ok tt) \/
   deleteCard flt db cardId = (db, Err DOMException)) /\
  (flt = None ->
   deleteCard flt db cardId = (mkStore (decks db) (delete cardId (cards db)), Ok tt)).
Proof.
  unfold deleteCard, transaction, cards_delete, request.
  destruct (decide (flt = Some 0%nat)) as [->|_]; [split; [by right|done]|].
  destruct (decide (flt = Some 1%nat)) as [->|_]; [split; [by right|done]|].
  split; [by left|done].
Qed.

(** X10. [deleteCard(id)] removes the record of that id and nothing else:
    when it completes the id is gone, every other card and every deck is
    as before, and deleting the same id again changes nothing; when it is
    rejected the store is as before. *)
Theorem deleteCard_removes_one (flt : Fault) (db : Store) (cardId : string) :
  (deleteCard flt db cardId = (mkStore (decks db) (delete cardId (cards db)), Ok tt) \/
   deleteCard flt db cardId = (db, Err DOMException)) /\
  cards (fst (deleteCard None db cardId)) !! cardId = None /\
  (forall key, key <> cardId ->
     cards (fst (deleteCard None db cardId)) !! key = cards db !! key) /\
  decks (fst (deleteCard None db cardId)) = decks db /\
  deleteCard None (fst (deleteCard None db cardId)) cardId
    = (fst (deleteCard None db cardId), Ok tt).
Proof.
  split; [apply deleteCard_outcome|].
  rewrite (proj2 (deleteCard_outcome None db cardId) eq_refl). simpl.
  split; [apply lookup_delete_eq|].
  split; [intros key Hne; by apply lookup_delete_ne|].
  split; [reflexivity|].
  rewrite (proj2 (deleteCard_outcome None _ cardId) eq_refl). simpl.
  by rewrite delete_delete_eq.
Qed.

(** X11. [updateDeck(id, name)] on a stored deck (decks stored under their
    own ids) replaces the name by the trimmed [name], keeps the deck's id
    and [createdAt], and touches no other deck and no card; a blank name is
    accepted like any other.  On an unknown id it is rejected with "Deck
    not found" and the store is unchanged. *)
Theorem updateDeck_renames (db : Store) (deck : string) (new_name : string) :
  deck_keyPath_ok db ->
  match decks db !! deck with
  | Some d =>
      exists d',
        updateDeck None db deck new_name
          = (mkStore (<[deck := d']> (decks db)) (cards db), Ok d') /\
        name d' = trim new_name /\
        deck_id d' = deck_id d /\
        deck_createdAt d' = deck_createdAt d
  | None =>
      updateDeck None db deck new_name = (db, Err (Error "Deck not found"))
  end.
Proof.
  intros Hkey.
  unfold updateDeck, transaction, tx_bind, decks_get, request. simpl.
  destruct (decks db !! deck) as [d|] eqn:Hd; [|reflexivity].
  unfold tx_bind, decks_put, request, tx_ret. simpl.
  pose proof (Hkey deck d Hd) as Hid. simpl in Hid. rewrite Hid.
  eexists. split; [reflexivity|]. simpl. by rewrite ?Hid.
Qed.

(** X12. [addDeck(name)] stores a new deck under the generated id, with
    the trimmed name (a blank one included) and the clock reading as
    [createdAt], and touches no card; when the generated id is already
    taken it is rejected with the storage failure and the store is
    unchanged, so an existing deck is never overwritten. *)
Theorem addDeck_creates_or_rejects (flt : Fault) (db : Store) (new_name : string)
    (w : World) :
  match decks db !! fst (uid w) with
  | None =>
      exists d,
        fst (addDeck None db new_name w)
          = (mkStore (<[deck_id d := d]> (decks db)) (cards db), Ok d) /\
        deck_id d = fst (uid w) /\
        name d = trim new_name /\
        deck_createdAt d = clock w (S (ticks w))
  | Some _ => fst (addDeck flt db new_name w) = (db, Err DOMException)
  end.
Proof.
  unfold addDeck, bind, ret.
  destruct (uid w) as [i w1] eqn:Hu.
  pose proof (uid_world w) as Hw1. rewrite Hu in Hw1. simpl in Hw1. subst w1.
  unfold Date_now. simpl.
  unfold transaction, tx_bind, decks_add, request, tx_ret. simpl.
  destruct (decks db !! i) as [d0|] eqn:Hd; simpl.
  - by destruct (decide (flt = Some 0%nat)).
  - eexists (mkDeck i _ _). split; [reflexivity|]. simpl. repeat split; reflexivity.
Qed.

(** X13. When the id generated for a new card is already the id of a
    stored card, [addCard] is rejected with the storage failure and the
    store is unchanged: the existing card is never overwritten. *)
Theorem addCard_never_overwrites (flt : Fault) (db : Store) (deckId0 : string)
    (fields : Fields) (w : World) :
  is_Some (cards db !! fst (uid w)) ->
  fst (addCard flt db deckId0 fields w) = (db, Err DOMException).
Proof.
  intros [c Hc].
  unfold addCard, bind, ret, defaultSRS.
  destruct (uid w) as [i w1]. simpl in Hc. unfold Date_now. simpl.
  unfold transaction, tx_bind, cards_add, request, tx_ret. simpl.
  rewrite Hc. by destruct (decide (flt = Some 0%nat)).
Qed.

(** ** Listings after a change *)

Lemma StronglySorted_perm_eq {A} (R : A -> A -> Prop) (l1 l2 : list A) :
  (forall a b, a ∈ l1 -> b ∈ l1 -> R a b -> R b a -> a = b) ->
  StronglySorted R l1 -> StronglySorted R l2 -> l1 ≡ₚ l2 -> l1 = l2.
Proof.
  revert l2. induction l1 as [|x t IH]; intros l2 Hanti H1 H2 Hp.
  - by apply Permutation_nil in Hp.
  - destruct l2 as [|y t2]; [by apply Permutation_sym, Permutation_nil in Hp|].
    apply StronglySorted_inv in H1 as [H1t H1x].
    apply StronglySorted_inv in H2 as [H2t H2y].
    assert (x = y) as <-.
    { assert (Hx : x ∈ y :: t2) by (rewrite <- Hp; left).
      assert (Hy : y ∈ x :: t) by (rewrite Hp; left).
      apply elem_of_cons in Hx as [->|Hx]; [reflexivity|].
      apply elem_of_cons in Hy as [->|Hy]; [reflexivity|].
      apply Hanti; [left | by right | |].
      - rewrite Forall_forall in H1x. by apply H1x.
      - rewrite Forall_forall in H2y. by apply H2y. }
    f_equal. apply IH; [|assumption|assumption|by apply Permutation_cons_inv in Hp].
    intros a b Ha Hb. apply Hanti; by right.
Qed.

Lemma by_deck_ext (s1 s2 : Store) (deck : string) :
  (forall key c, deckId c = deck ->
     (cards s1 !! key = Some c <-> cards s2 !! key = Some c)) ->
  by_deck s1 deck = by_deck s2 deck.
Proof.
  intros Hext. unfold by_deck.
  set (leb := fun x y : string * Card => String.leb x.1 y.1).
  assert (Htot : forall x y, leb x y = true \/ leb y x = true)
    by (intros; apply String.leb_total).
  assert (Htrans : forall x y z, leb x y = true -> leb y z = true -> leb x z = true).
  { intros x y z Hxy Hyz. apply Is_true_true.
    apply Is_true_true in Hxy, Hyz.
    by apply (transitivity (R := String.le) Hxy Hyz). }
  apply (StronglySorted_perm_eq (fun a b => leb a b = true)).
  - intros [k1 c1] [k2 c2] Ha Hb Hab Hba.
    rewrite sort_by_perm in Ha, Hb.
    apply list_elem_of_filter in Ha as [_ Ha], Hb as [_ Hb].
    apply elem_of_map_to_list in Ha, Hb. simpl in *.
    assert (k1 = k2) as -> by (by apply String.leb_antisym).
    congruence.
  - by apply sort_by_sorted.
  - by apply sort_by_sorted.
  - rewrite !sort_by_perm. apply NoDup_Permutation.
    + apply NoDup_filter, NoDup_map_to_list.
    + apply NoDup_filter, NoDup_map_to_list.
    + intros [k c]. rewrite !list_elem_of_filter, !elem_of_map_to_list. simpl.
      split; intros [Hd Hc]; (split; [exact Hd|]); by apply (Hext k c Hd).
Qed.

Lemma by_deck_empty (s : Store) (deck : string) :
  (forall key c, cards s !! key = Some c -> deckId c <> deck) ->
  by_deck s deck = [].
Proof.
  intros Hno. unfold by_deck.
  rewrite filter_none; [reflexivity|].
  apply Forall_forall. intros [k c] Hin. apply elem_of_map_to_list in Hin.
  simpl. by apply (Hno k).
Qed.

(** X14. After a completed [deleteDeck(d)], [getCardsByDeck(d)] returns the
    empty list, and for every other deck it returns exactly the list it
    returned before the deletion. *)
Theorem deleteDeck_then_getCardsByDeck (db : Store) (deck other : string) :
  getCardsByDeck None (fst (deleteDeck None db deck)) deck
    = (fst (deleteDeck None db deck), Ok []) /\
  (other <> deck ->
   snd (getCardsByDeck None (fst (deleteDeck None db deck)) other)
     = snd (getCardsByDeck None db other)).
Proof.
  rewrite (proj2 (deleteDeck_outcome None db deck) eq_refl). simpl.
  rewrite !getCardsByDeck_outcome. simpl. split.
  - rewrite by_deck_empty; [reflexivity|].
    intros key c Hc. simpl in Hc. by apply map_lookup_filter_Some in Hc as [_ Hc].
  - intros Hne. do 3 f_equal. apply by_deck_ext.
    intros key c Hd. simpl. rewrite map_lookup_filter_Some. simpl.
    split; [tauto|]. intros Hc. split; [exact Hc | congruence].
Qed.

Lemma addCard_fresh (db : Store) (deckId0 : string) (fields : Fields) (w : World) :
  cards db !! fst (uid w) = None ->
  fst (addCard None db deckId0 fields w)
  = (mkStore (decks db)
             (<[fst (uid w) := new_card deckId0 fields w]> (cards db)),
     Ok (new_card deckId0 fields w)).
Proof.
  intros Hfresh. unfold addCard, new_card, bind, ret, defaultSRS.
  destruct (uid w) as [i w1] eqn:Hu.
  pose proof (uid_world w) as Hw1. rewrite Hu in Hw1. simpl in Hw1. subst w1.
  simpl in Hfresh. unfold Date_now. simpl.
  unfold transaction, tx_bind, cards_add, request, tx_ret. simpl.
  by rewrite Hfresh.
Qed.

(** X15. After [addCard] has created a card in deck [d] (generated id not
    taken, no storage fault), [getCardsByDeck(d)] returns the new card
    together with exactly the cards it returned before, and for every other
    deck it returns exactly the list it returned before. *)
Theorem addCard_then_getCardsByDeck (db : Store) (deck other : string)
    (fields : Fields) (w : World) :
  cards db !! fst (uid w) = None ->
  exists card l l',
    snd (fst (addCard None db deck fields w)) = Ok card /\
    deckId card = deck /\
    snd (getCardsByDeck None db deck) = Ok l /\
    snd (getCardsByDeck None (fst (fst (addCard None db deck fields w))) deck) = Ok l' /\
    l' ≡ₚ card :: l /\
    (other <> deck ->
     snd (getCardsByDeck None (fst (fst (addCard None db deck fields w))) other)
       = snd (getCardsByDeck None db other)).
Proof.
  intros Hfresh. rewrite (addCard_fresh db deck fields w Hfresh). cbn [fst snd].
  set (nc := new_card deck fields w).
  rewrite !getCardsByDeck_outcome. cbn [fst snd].
  eexists nc, _, _. split; [reflexivity|]. split; [reflexivity|].
  split; [reflexivity|]. split; [reflexivity|]. split.
  - rewrite !sort_by_perm, !by_deck_records. unfold deck_records. simpl.
    rewrite map_to_list_insert by exact Hfresh.
    rewrite filter_cons_True by reflexivity. reflexivity.
  - intros Hne. do 3 f_equal. apply by_deck_ext.
    intros key c Hd. simpl.
    destruct (decide (key = fst (uid w))) as [->|Hk].
    + rewrite lookup_insert_eq, Hfresh. split; [|discriminate].
      intros [= <-]. simpl in Hd. congruence.
    + by rewrite lookup_insert_ne.
Qed.

Lemma addCard_then_getCardsByDeck_witness :
  cards db0 !! fst (uid world0) = None /\
  exists card l',
    snd (fst (addCard None db0 "d1" fields0 world0)) = Ok card /\
    snd (getCardsByDeck None (fst (fst (addCard None db0 "d1" fields0 world0))) "d1")
      = Ok l' /\
    l' ≡ₚ [card; card3].
Proof.
  assert (H : cards db0 !! fst (uid world0) = None) by (vm_compute; reflexivity).
  split; [exact H|].
  destruct (addCard_then_getCardsByDeck db0 "d1" "d0" fields0 world0 H)
    as (card & l & l' & Hc & _ & Hl & Hl' & Hp & _).
  exists card, l'. split; [exact Hc|]. split; [exact Hl'|].
  assert (l = [card3]) as <-; [|exact Hp].
  vm_compute in Hl. by injection Hl as <-.
Defined.

(** ** Invariants of the store *)

Section tx_preserves_facts.
Context (Inv : Store -> Prop).

Lemma tx_preserves_ret {A} (a : A) : tx_preserves Inv (tx_ret a).
Proof. intros flt work k H. exact H. Qed.

Lemma tx_preserves_throw {A} (e : exn) : tx_preserves Inv (@tx_throw A e).
Proof. intros flt work k H. exact H. Qed.

Lemma tx_preserves_bind {A B} (m : Tx A) (f : A -> Tx B) :
  tx_preserves Inv m -> (forall a, tx_preserves Inv (f a)) -> tx_preserves Inv (tx_bind m f).
Proof.
  intros Hm Hf flt work k H. unfold tx_bind.
  specialize (Hm flt work k H).
  destruct (m flt work k) as [a work' k'|e work' k'|]; [|exact Hm|exact I].
  by apply Hf.
Qed.

Lemma tx_preserves_request {A} (op : Store -> option (A * Store)) :
  (forall s a s', Inv s -> op s = Some (a, s') -> Inv s') -> tx_preserves Inv (request op).
Proof.
  intros Hop flt work k H. unfold request.
  destruct (decide (flt = Some k)); [exact I|].
  destruct (op work) as [[a s']|] eqn:E; [|exact I]. by eapply Hop.
Qed.

Lemma transaction_preserves {A} (flt : Fault) (db : Store) (body : Tx A) :
  tx_preserves Inv body -> Inv db -> Inv (fst (transaction flt db body)).
Proof.
  intros Hb H. unfold transaction.
  specialize (Hb flt db 0%nat H).
  destruct (body flt db 0%nat) as [a work k|e work k|]; [| |exact H];
    by destruct (decide (flt = Some k)).
Qed.
End tx_preserves_facts.

Lemma keys_ok_put_card (s : Store) (c : Card) :
  keys_ok s -> keys_ok (mkStore (decks s) (<[id c := c]> (cards s))).
Proof. intros [Hc Hd]. split; [by apply keyPath_ok_put | exact Hd]. Qed.

Lemma keys_ok_put_deck (s : Store) (d : Deck) :
  keys_ok s -> keys_ok (mkStore (<[deck_id d := d]> (decks s)) (cards s)).
Proof.
  intros [Hc Hd]. split; [exact Hc|].
  unfold deck_keyPath_ok. simpl. by apply map_Forall_insert_2.
Qed.

Lemma keys_ok_cursor_loop (keys : list string) : tx_preserves keys_ok (cursor_loop keys).
Proof.
  induction keys as [|key keys IH]; [apply tx_preserves_ret|].
  simpl. unfold cursor_delete, cards_delete, cursor_continue.
  apply tx_preserves_bind.
  - apply tx_preserves_request. intros s [] s' [Hc Hd] [= <-].
    split; [by apply keyPath_ok_delete | exact Hd].
  - intros _. apply tx_preserves_bind; [|intros _; exact IH].
    apply tx_preserves_request. by intros s [] s' H [= <-].
Qed.

(** X16. Every operation of [db.js] that writes keeps the records under
    their own ids: if each card and each deck of the store is stored under
    its [id], the same holds of the store the operation leaves, whatever
    its arguments and whatever storage fault is injected. *)
Theorem keys_ok_preserved (flt : Fault) (db : Store) (w : World) :
  keys_ok db ->
  (forall card, keys_ok (fst (putCard flt db card))) /\
  (forall cardId, keys_ok (fst (deleteCard flt db cardId))) /\
  (forall cardId fields, keys_ok (fst (updateCard flt db cardId fields))) /\
  (forall deckId0 fields, keys_ok (fst (fst (addCard flt db deckId0 fields w)))) /\
  (forall deck, keys_ok (fst (deleteDeck flt db deck))) /\
  (forall deck new_name, keys_ok (fst (updateDeck flt db deck new_name))) /\
  (forall new_name, keys_ok (fst (fst (addDeck flt db new_name w)))) /\
  keys_ok (fst (wipeAll flt db)).
Proof.
  intros H.
  split; [|split; [|split; [|split; [|split; [|split; [|split]]]]]].
  - intros card. unfold putCard, cards_put. apply transaction_preserves; [|exact H].
    apply tx_preserves_request. intros s [] s' Hs [= <-]. by apply keys_ok_put_card.
  - intros cardId. unfold deleteCard, cards_delete. apply transaction_preserves; [|exact H].
    apply tx_preserves_request. intros s [] s' [Hc Hd] [= <-].
    split; [by apply keyPath_ok_delete | exact Hd].
  - intros cardId fields. unfold updateCard, cards_get, cards_put.
    apply transaction_preserves; [|exact H].
    apply tx_preserves_bind.
    + apply tx_preserves_request. by intros s a s' Hs [= _ <-].
    + intros [c|]; [|apply tx_preserves_throw].
      apply tx_preserves_bind; [|intros; apply tx_preserves_ret].
      apply tx_preserves_request. intros s [] s' Hs [= <-].
      apply (keys_ok_put_card s (mkCard (id c) _ _ _ _ _ _ _ _ _) Hs).
  - intros deckId0 fields. unfold addCard, bind, ret.
    destruct (uid w) as [i w1]. destruct (Date_now w1) as [t w2].
    destruct (defaultSRS w2) as [s0 w3]. cbn [fst]. unfold cards_add.
    apply transaction_preserves; [|exact H].
    apply tx_preserves_bind; [|intros; apply tx_preserves_ret].
    apply tx_preserves_request. intros s [] s' Hs. simpl.
    destruct (cards s !! i); [discriminate|]. intros [= <-].
    apply (keys_ok_put_card s (mkCard i _ _ _ _ _ _ _ _ _) Hs).
  - intros deck. unfold deleteDeck, decks_delete, by_deck_openCursor.
    apply transaction_preserves; [|exact H].
    apply tx_preserves_bind.
    + apply tx_preserves_request. intros s [] s' [Hc Hd] [= <-].
      split; [exact Hc|]. unfold deck_keyPath_ok. simpl. by apply map_Forall_delete.
    + intros _. apply tx_preserves_bind; [|intros; apply keys_ok_cursor_loop].
      apply tx_preserves_request. by intros s a s' Hs [= _ <-].
  - intros deck new_name. unfold updateDeck, decks_get, decks_put.
    apply transaction_preserves; [|exact H].
    apply tx_preserves_bind.
    + apply tx_preserves_request. by intros s a s' Hs [= _ <-].
    + intros [d|]; [|apply tx_preserves_throw].
      apply tx_preserves_bind; [|intros; apply tx_preserves_ret].
      apply tx_preserves_request. intros s [] s' Hs [= <-].
      apply (keys_ok_put_deck s (mkDeck (deck_id d) _ _) Hs).
  - intros new_name. unfold addDeck, bind, ret.
    destruct (uid w) as [i w1]. destruct (Date_now w1) as [t w2]. cbn [fst].
    unfold decks_add. apply transaction_preserves; [|exact H].
    apply tx_preserves_bind; [|intros; apply tx_preserves_ret].
    apply tx_preserves_request. intros s [] s' Hs. simpl.
    destruct (decks s !! i); [discriminate|]. intros [= <-].
    apply (keys_ok_put_deck s (mkDeck i _ _) Hs).
  - destruct (wipeAll_outcome flt db) as [[-> | ->] _]; [|exact H].
    split; apply map_Forall_empty.
Qed.

Lemma no_orphans_put_deck (s : Store) (d : Deck) :
  no_orphans s -> no_orphans (mkStore (<[deck_id d := d]> (decks s)) (cards s)).
Proof.
  intros H key c Hc. simpl in *. apply lookup_insert_is_Some'. right.
  by apply (H key c).
Qed.

Lemma no_orphans_put_card (s : Store) (c : Card) :
  is_Some (decks s !! deckId c) -> no_orphans s ->
  no_orphans (mkStore (decks s) (<[id c := c]> (cards s))).
Proof. intros Hd H. unfold no_orphans. simpl. by apply map_Forall_insert_2. Qed.

Lemma no_orphans_delete_card (s : Store) (key : string) :
  no_orphans s -> no_orphans (mkStore (decks s) (delete key (cards s))).
Proof. intros H. unfold no_orphans. simpl. by apply map_Forall_delete. Qed.

Lemma no_orphans_deck_deleted (db : Store) (deck : string) :
  no_orphans db -> no_orphans (deck_deleted db deck).
Proof.
  intros H key c Hc. simpl in *.
  apply map_lookup_filter_Some in Hc as [Hc Hd]. simpl in Hd.
  rewrite lookup_delete_ne by congruence. by apply (H key c).
Qed.

(** X17. Referential integrity (every card's [deckId] names a stored deck)
    is kept by [deleteDeck], [deleteCard], [updateCard], [updateDeck],
    [addDeck] and [wipeAll] for all arguments and whatever storage fault is
    injected, and by [addCard] and [putCard] whenever the deck they name is
    in the store. *)
Theorem no_orphans_preserved (flt : Fault) (db : Store) (w : World) :
  no_orphans db ->
  (forall deck, no_orphans (fst (deleteDeck flt db deck))) /\
  (forall cardId, no_orphans (fst (deleteCard flt db cardId))) /\
  (forall cardId fields, no_orphans (fst (updateCard flt db cardId fields))) /\
  (forall deck new_name, no_orphans (fst (updateDeck flt db deck new_name))) /\
  (forall new_name, no_orphans (fst (fst (addDeck flt db new_name w)))) /\
  no_orphans (fst (wipeAll flt db)) /\
  (forall deckId0 fields, is_Some (decks db !! deckId0) ->
     no_orphans (fst (fst (addCard flt db deckId0 fields w)))) /\
  (forall card, is_Some (decks db !! deckId card) ->
     no_orphans (fst (putCard flt db card))).
Proof.
  intros H.
  split; [|split; [|split; [|split; [|split; [|split; [|split]]]]]].
  - intros deck. destruct (deleteDeck_outcome flt db deck) as [[-> | ->] _];
      [by apply no_orphans_deck_deleted | exact H].
  - intros cardId. destruct (deleteCard_outcome flt db cardId) as [[-> | ->] _];
      [by apply no_orphans_delete_card | exact H].
  - intros cardId fields.
    unfold updateCard, transaction, tx_bind, cards_get, request.
    destruct (decide (flt = Some 0%nat)); [exact H|].
    destruct (cards db !! cardId) as [c|] eqn:Hc.
    + unfold cards_put, request, tx_ret.
      destruct (decide (flt = Some 1%nat)); [exact H|].
      destruct (decide (flt = Some 2%nat)); [exact H|].
      simpl. apply (no_orphans_put_card db (mkCard (id c) (deckId c) _ _ _ _ _ _ _ _));
        [|exact H].
      simpl. by apply (H cardId c).
    + unfold tx_throw. by destruct (decide (flt = Some 1%nat)).
  - intros deck new_name. unfold updateDeck, decks_get, decks_put.
    apply transaction_preserves; [|exact H].
    apply tx_preserves_bind.
    + apply tx_preserves_request. by intros s a s' Hs [= _ <-].
    + intros [d|]; [|apply tx_preserves_throw].
      apply tx_preserves_bind; [|intros; apply tx_preserves_ret].
      apply tx_preserves_request. intros s [] s' Hs [= <-].
      apply (no_orphans_put_deck s (mkDeck (deck_id d) _ _) Hs).
  - intros new_name. unfold addDeck, bind, ret.
    destruct (uid w) as [i w1]. destruct (Date_now w1) as [t w2]. cbn [fst].
    unfold decks_add. apply transaction_preserves; [|exact H].
    apply tx_preserves_bind; [|intros; apply tx_preserves_ret].
    apply tx_preserves_request. intros s [] s' Hs. simpl.
    destruct (decks s !! i); [discriminate|]. intros [= <-].
    apply (no_orphans_put_deck s (mkDeck i _ _) Hs).
  - destruct (wipeAll_outcome flt db) as [[-> | ->] _]; [|exact H].
    apply map_Forall_empty.
  - intros deckId0 fields Hdeck. unfold addCard, bind, ret.
    destruct (uid w) as [i w1]. destruct (Date_now w1) as [t w2].
    destruct (defaultSRS w2) as [s0 w3]. cbn [fst].
    unfold transaction, tx_bind, cards_add, request, tx_ret. simpl.
    destruct (decide (flt = Some 0%nat)); [exact H|].
    destruct (cards db !! i); [exact H|].
    destruct (decide (flt = Some 1%nat)); [exact H|]. simpl.
    by apply (no_orphans_put_card db (mkCard i deckId0 _ _ _ _ _ _ _ _)).
  - intros card Hdeck. unfold putCard, transaction, cards_put, request.
    destruct (decide (flt = Some 0%nat)); [exact H|].
    destruct (decide (flt = Some 1%nat)); [exact H|].
    by apply no_orphans_put_card.
Qed.

(** ** CSV: reading back what was written *)

Lemma string_app_cons (c : ascii) (s t : string) :
  (String c s ++ t)%string = String c (s ++ t)%string.
Proof. reflexivity. Qed.

Lemma string_app_nil_r (s : string) : (s ++ "")%string = s.
Proof. induction s as [|c s IH]; [reflexivity|]. by rewrite string_app_cons, IH. Qed.

Lemma string_app_assoc (s t u : string) :
  ((s ++ t) ++ u)%string = (s ++ (t ++ u))%string.
Proof. induction s as [|c s IH]; [reflexivity|]. by rewrite !string_app_cons, IH. Qed.

Lemma push_char_app (cur : string) (c : ascii) (s : string) :
  (push_char cur c ++ s)%string = (cur ++ String c s)%string.
Proof. unfold push_char. by rewrite string_app_assoc. Qed.

Lemma parseCSV_loop_plain (f rest : string) rows row cur :
  has_special f = false -> has_cr f = false ->
  parseCSV_loop (f ++ rest) rows row cur false
  = parseCSV_loop rest rows row (cur ++ f) false.
Proof.
  revert cur. induction f as [|c f IH]; intros cur Hs Hc.
  - by rewrite string_app_nil_r.
  - simpl in Hs, Hc.
    apply orb_false_elim in Hs as [Hs Hs4]. apply orb_false_elim in Hs as [Hs Hs3].
    apply orb_false_elim in Hs as [Hs1 Hs2]. apply orb_false_elim in Hc as [Hc1 Hc2].
    rewrite string_app_cons. cbn [parseCSV_loop].
    rewrite Hs1, Hs2, Hs3, Hc1. rewrite IH by assumption.
    by rewrite push_char_app.
Qed.

Lemma parseCSV_loop_quoted (f rest : string) rows row cur :
  ~ starts_with_quote rest ->
  parseCSV_loop (double_quotes f ++ String dquote rest) rows row cur true
  = parseCSV_loop rest rows row (cur ++ f) false.
Proof.
  intros Hrest. revert cur. induction f as [|c f IH]; intros cur.
  - rewrite string_app_nil_r. cbn [double_quotes].
    change ("" ++ String dquote rest)%string with (String dquote rest).
    cbn [parseCSV_loop]. rewrite Ascii.eqb_refl.
    destruct rest as [|next rest']; [reflexivity|].
    destruct (Ascii.eqb_spec next dquote) as [->|_]; [|reflexivity].
    exfalso. by apply Hrest.
  - cbn [double_quotes]. destruct (Ascii.eqb_spec c dquote) as [->|Hc].
    + rewrite !string_app_cons. cbn [parseCSV_loop]. rewrite !Ascii.eqb_refl.
      rewrite IH. by rewrite push_char_app.
    + rewrite string_app_cons. cbn [parseCSV_loop].
      destruct (Ascii.eqb_spec c dquote) as [?|_]; [contradiction|].
      rewrite IH. by rewrite push_char_app.
Qed.

Lemma parseCSV_loop_esc (f rest : string) rows row cur :
  csv_cell_ok f -> ~ starts_with_quote rest ->
  parseCSV_loop (esc f ++ rest) rows row cur false
  = parseCSV_loop rest rows row (cur ++ f) false.
Proof.
  intros Hok Hrest. unfold esc. destruct (has_special f) eqn:Hs.
  - rewrite string_app_cons. cbn [parseCSV_loop]. rewrite Ascii.eqb_refl.
    rewrite string_app_assoc, string_app_cons.
    change ("" ++ rest)%string with rest.
    by apply parseCSV_loop_quoted.
  - destruct Hok as [Hok|Hok]; [congruence|]. by apply parseCSV_loop_plain.
Qed.

Lemma comma_not_quote (s : string) : ~ starts_with_quote (String comma s).
Proof. simpl. discriminate. Qed.

Lemma LF_not_quote (s : string) : ~ starts_with_quote (String LF s).
Proof. simpl. discriminate. Qed.

Lemma parseCSV_loop_line (f : string) (fs : list string) (rest : string) rows row cur :
  Forall csv_cell_ok (f :: fs) -> ~ starts_with_quote rest ->
  parseCSV_loop
    (String.concat (String comma EmptyString) (map esc (f :: fs)) ++ rest)
    rows row cur false
  = parseCSV_loop rest rows
      (row ++ removelast ((cur ++ f)%string :: fs))
      (List.last ((cur ++ f)%string :: fs) EmptyString) false.
Proof.
  revert f row cur. induction fs as [|g gs IH]; intros f row cur Hok Hrest.
  - apply Forall_cons in Hok as [Hf _]. cbn [map String.concat removelast List.last].
    rewrite app_nil_r. by apply parseCSV_loop_esc.
  - apply Forall_cons in Hok as [Hf Hok].
    change (String.concat (String comma EmptyString) (map esc (f :: g :: gs)))
      with (esc f ++ String comma EmptyString
              ++ String.concat (String comma EmptyString) (map esc (g :: gs)))%string.
    rewrite !string_app_assoc, string_app_cons.
    rewrite parseCSV_loop_esc by (assumption || apply comma_not_quote).
    cbn [parseCSV_loop]. change (Ascii.eqb comma dquote) with false.
    rewrite Ascii.eqb_refl. cbv iota.
    change ("" ++ ?x)%string with x.
    rewrite (IH g (row ++ [(cur ++ f)%string]) EmptyString Hok Hrest).
    change ("" ++ g)%string with g.
    change (removelast ((cur ++ f)%string :: g :: gs))
      with ((cur ++ f)%string :: removelast (g :: gs)).
    change (List.last ((cur ++ f)%string :: g :: gs) EmptyString)
      with (List.last (g :: gs) EmptyString).
    by rewrite <- app_assoc.
Qed.

Lemma removelast_last_row (r : list string) :
  r <> [] -> removelast r ++ [List.last r EmptyString] = r.
Proof. intros Hr. symmetry. by apply app_removelast_last. Qed.

Lemma toCSV_one (r : list string) :
  toCSV [r] = String.concat (String comma EmptyString) (map esc r).
Proof. reflexivity. Qed.

Lemma toCSV_more (r r2 : list string) (rs : list (list string)) :
  toCSV (r :: r2 :: rs)
  = (String.concat (String comma EmptyString) (map esc r)
       ++ String LF (toCSV (r2 :: rs)))%string.
Proof. reflexivity. Qed.

Lemma parseCSV_loop_rows (r : list string) (rs : list (list string)) rows0 :
  Forall csv_row_ok (r :: rs) ->
  parseCSV_loop (toCSV (r :: rs)) rows0 [] EmptyString false
  = (rows0 ++ removelast (r :: rs),
     removelast (List.last (r :: rs) []),
     List.last (List.last (r :: rs) []) EmptyString).
Proof.
  revert r rows0. induction rs as [|r2 rs IH]; intros r rows0 Hok.
  - apply Forall_cons in Hok as [[Hne Hcells] _].
    destruct r as [|f fs]; [done|].
    rewrite toCSV_one, <- (string_app_nil_r (String.concat _ _)).
    rewrite parseCSV_loop_line by (assumption || (simpl; tauto)).
    cbn [parseCSV_loop removelast List.last]. by rewrite app_nil_r.
  - apply Forall_cons in Hok as [[Hne Hcells] Hok].
    destruct r as [|f fs]; [done|].
    rewrite toCSV_more.
    rewrite parseCSV_loop_line by (assumption || apply LF_not_quote).
    cbn [parseCSV_loop]. change (Ascii.eqb LF dquote) with false.
    change (Ascii.eqb LF comma) with false. change (Ascii.eqb LF CR) with false.
    rewrite Ascii.eqb_refl. cbv iota.
    rewrite (IH r2 _ Hok).
    change ("" ++ f)%string with f. rewrite app_nil_l.
    rewrite (removelast_last_row (f :: fs)) by done.
    change (removelast ((f :: fs) :: r2 :: rs)) with ((f :: fs) :: removelast (r2 :: rs)).
    change (List.last ((f :: fs) :: r2 :: rs) []) with (List.last (r2 :: rs) []).
    by rewrite <- app_assoc.
Qed.

Lemma parseCSV_toCSV_rows (rows : list (list string)) :
  Forall csv_row_ok rows -> csv_last_row_ok rows ->
  parseCSV (toCSV rows) = rows.
Proof.
  intros Hok Hlast. destruct rows as [|r rs]; [reflexivity|].
  unfold parseCSV. rewrite (parseCSV_loop_rows r rs [] Hok). rewrite app_nil_l.
  assert (Hl : last (r :: rs) = Some (List.last (r :: rs) [])).
  { clear. revert r. induction rs as [|r2 rs IH]; intros r; [reflexivity|].
    apply (IH r2). }
  assert (Hne : List.last (r :: rs) [] <> []).
  { assert (Hin : List.last (r :: rs) [] ∈ r :: rs).
    { apply list_elem_of_In. clear. revert r.
      induction rs as [|r2 rs IH]; intros r; [by left|]. right. apply (IH r2). }
    rewrite Forall_forall in Hok. by destruct (Hok _ Hin). }
  unfold csv_last_row_ok in Hlast. rewrite Hl in Hlast.
  rewrite (removelast_last_row _ Hne).
  assert ((1 <? length (List.last (r :: rs) []))%nat
          || negb (String.eqb (trim (nth 0 (List.last (r :: rs) []) EmptyString))
                              EmptyString) = true) as ->.
  { destruct Hlast as [H|H].
    - apply orb_true_iff. left. by apply Nat.ltb_lt.
    - apply orb_true_iff. right. apply negb_true_iff. by apply String.eqb_neq. }
  symmetry. apply (app_removelast_last []). discriminate.
Qed.


Lemma csv_rows0_ok : Forall csv_row_ok csv_rows0.
Proof.
  unfold csv_rows0, csv_row_ok, csv_cell_ok.
  repeat (apply List.Forall_cons || apply List.Forall_nil || split);
    try discriminate; (right; reflexivity) || (left; reflexivity).
Defined.


Lemma parseCSV_loop_remove_cr (text : string) rows row cur :
  has_quote text = false ->
  parseCSV_loop text rows row cur false
  = parseCSV_loop (remove_cr text) rows row cur false.
Proof.
  revert rows row cur. induction text as [|c text IH]; intros rows row cur Hq;
    [reflexivity|].
  simpl in Hq. apply orb_false_elim in Hq as [Hc Hq].
  cbn [parseCSV_loop remove_cr]. rewrite Hc.
  destruct (Ascii.eqb c comma) eqn:E1.
  - destruct (Ascii.eqb c CR) eqn:E2.
    + apply Ascii.eqb_eq in E1, E2. subst c. discriminate E2.
    + cbn [parseCSV_loop]. rewrite Hc, E1. by apply IH.
  - destruct (Ascii.eqb c CR) eqn:E2; [by apply IH|].
    cbn [parseCSV_loop]. rewrite Hc, E1, E2.
    destruct (Ascii.eqb c LF); by apply IH.
Qed.

(** X19. On a text without double quotes, [parseCSV] gives the same table
    whether or not the text holds carriage returns: a file with CR LF line
    ends is read like the same file with LF line ends. *)
Theorem parseCSV_ignores_cr (text : string) :
  has_quote text = false ->
  parseCSV text = parseCSV (remove_cr text).
Proof.
  intros Hq. unfold parseCSV. by rewrite parseCSV_loop_remove_cr.
Qed.

Lemma parseCSV_ignores_cr_witness :
  has_quote ("a,b" ++ String CR (String LF "c,d"))%string = false /\
  parseCSV ("a,b" ++ String CR (String LF "c,d"))%string = [["a"; "b"]; ["c"; "d"]].
Proof.
  assert (H : has_quote ("a,b" ++ String CR (String LF "c,d"))%string = false)
    by reflexivity.
  split; [exact H|].
  rewrite (parseCSV_ignores_cr _ H). reflexivity.
Defined.

(** ** Escaping for the page *)

Lemma list_ascii_of_string_app (s t : string) :
  list_ascii_of_string (s ++ t)%string
  = list_ascii_of_string s ++ list_ascii_of_string t.
Proof.
  induction s as [|c s IH]; [reflexivity|].
  rewrite string_app_cons. simpl. by rewrite IH.
Qed.

Lemma escape_char_inert (c : ascii) :
  Forall html_inert (list_ascii_of_string (escape_char c)).
Proof.
  unfold escape_char.
  destruct (Ascii.eqb_spec c amp);
    [repeat constructor; discriminate|].
  destruct (Ascii.eqb_spec c lt_sign); [repeat constructor; discriminate|].
  destruct (Ascii.eqb_spec c gt_sign); [repeat constructor; discriminate|].
  destruct (Ascii.eqb_spec c dquote); [repeat constructor; discriminate|].
  destruct (Ascii.eqb_spec c squote); [repeat constructor; discriminate|].
  repeat constructor; assumption.
Qed.

(** X20. The text [escapeHtml] returns holds no angle bracket, no double
    quote and no single quote, whatever the input; and a text holding none
    of the five replaced characters is returned as it is. *)
Theorem escapeHtml_inert (s : string) :
  Forall html_inert (list_ascii_of_string (escapeHtml s)) /\
  (has_html_special s = false -> escapeHtml s = s).
Proof.
  split.
  - induction s as [|c s IH]; [constructor|].
    cbn [escapeHtml]. rewrite list_ascii_of_string_app.
    apply Forall_app. split; [apply escape_char_inert | exact IH].
  - induction s as [|c s IH]; [reflexivity|].
    intros H. simpl in H.
    apply orb_false_elim in H as [H Hs]. apply orb_false_elim in H as [H H5].
    apply orb_false_elim in H as [H H4]. apply orb_false_elim in H as [H H3].
    apply orb_false_elim in H as [H1 H2].
    cbn [escapeHtml]. unfold escape_char. rewrite H1, H2, H3, H4, H5.
    rewrite string_app_cons. by rewrite (IH Hs).
Qed.

(** ** Sessions *)

Section SessionRunFacts.

Variable Dom : Type.
Variable set_textContent : string -> string -> Dom -> Dom.
Variable setStudyVisible : bool -> Dom -> Dom.
Variable renderCurrentCard : Study -> Dom -> Dom.
Variable showCardsPanel : option string -> list Deck -> Dom -> Dom.
Variable renderCardList : list Card -> Dom -> M Dom.
Variable renderStudyStats : option string -> list Card -> Dom -> M Dom.

Local Abbreviation grade_ :=
  (gradeCurrent Dom set_textContent setStudyVisible renderCurrentCard
                showCardsPanel renderCardList renderStudyStats).
Local Abbreviation load_ :=
  (loadCardsForSelectedDeck Dom set_textContent showCardsPanel renderCardList
                            renderStudyStats).
Local Abbreviation clicks_ :=
  (grade_clicks Dom set_textContent setStudyVisible renderCurrentCard
                showCardsPanel renderCardList renderStudyStats).

Lemma loadCardsForSelectedDeck_frame (a : App Dom) (w : World) :
  study (fst (fst (load_ a w))) = study a /\ db (fst (fst (load_ a w))) = db a.
Proof.
  unfold loadCardsForSelectedDeck.
  destruct (negb (truthy (selectedDeckId a))); [split; reflexivity|].
  unfold bind, next_fault. rewrite getCardsByDeck_outcome.
  repeat case_decide; try (split; reflexivity).
  destruct (renderCardList _ _ _) as [d2 w2].
  destruct (renderStudyStats _ _ _ _) as [d3 w3]. split; reflexivity.
Qed.

Lemma gradeable_test (st : Study) :
  gradeable st -> String.eqb (mode st) "gender" && negb (genderAnswered st) = false.
Proof.
  intros [H|H].
  - apply String.eqb_neq in H. by rewrite H.
  - rewrite H. apply andb_false_r.
Qed.

(** One click on a grade button while a card is shown, the learner has
    answered if the mode asks for it, and the write goes through. *)
Lemma gradeCurrent_step (grade : string) (a : App Dom) (w : World) (c : Card) :
  active (study a) = true -> current (study a) = Some c ->
  gradeable (study a) -> faults w (txs w) = None ->
  db (fst (fst (grade_ grade a w)))
    = mkStore (decks (db a))
              (<[id c := fst (applySRS c grade w)]> (cards (db a))) /\
  done (study (fst (fst (grade_ grade a w)))) = done (study a) + 1 /\
  goal (study (fst (fst (grade_ grade a w)))) = goal (study a) /\
  mode (study (fst (fst (grade_ grade a w)))) = mode (study a) /\
  if (goal (study a) <=? done (study a) + 1)%Z || (length (queue (study a)) =? 0)%nat
  then active (study (fst (fst (grade_ grade a w)))) = false
  else
    active (study (fst (fst (grade_ grade a w)))) = true /\
    current (study (fst (fst (grade_ grade a w)))) = head (queue (study a)) /\
    queue (study (fst (fst (grade_ grade a w)))) = tail (queue (study a)) /\
    flipped (study (fst (fst (grade_ grade a w)))) = false /\
    genderAnswered (study (fst (fst (grade_ grade a w)))) = false /\
    snd (fst (grade_ grade a w)) = Ok tt /\
    snd (grade_ grade a w)
      = mkWorld (clock w) (S (ticks w)) (random w) (draws w) (faults w)
                (S (txs w)) (num_hex w).
Proof.
  intros Hact Hcur Hgr Hflt. unfold gradeCurrent.
  rewrite Hact, Hcur, (gradeable_test _ Hgr). unfold bind.
  pose proof (applySRS_world c grade w) as Hw.
  pose proof (applySRS_id c grade w) as Hid.
  destruct (applySRS c grade w) as [c' w1]. simpl in Hw, Hid. subst w1.
  unfold next_fault, Date_now. cbn [faults txs fst snd]. rewrite Hflt.
  unfold putCard, transaction, cards_put, request. simpl.
  rewrite Hid.
  destruct ((goal (study a) <=? done (study a) + 1)%Z
            || (length (queue (study a)) =? 0)%nat).
  - destruct (same_id _ _).
    + match goal with |- context [loadCardsForSelectedDeck _ _ _ _ _ ?a2 ?w2] =>
        destruct (loadCardsForSelectedDeck_frame a2 w2) as [Hs Hd] end.
      rewrite Hs, Hd. simpl. repeat split; reflexivity.
    + simpl. repeat split; reflexivity.
  - simpl. repeat split; reflexivity.
Qed.

Lemma session_ok_last (st : Study) :
  session_ok st ->
  ((goal st <=? done st + 1)%Z || (length (queue st) =? 0)%nat = true
   <-> done st + 1 = goal st) /\
  (done st + 1 <= goal st)%Z.
Proof.
  intros (_ & _ & Hsum). split; [|lia].
  rewrite orb_true_iff, Z.leb_le, Nat.eqb_eq. split; [|lia].
  intros [H|H]; [lia|]. rewrite H in Hsum. simpl in Hsum. lia.
Qed.

(** X21. While a session is in progress ([session_ok]) and no answer is
    missing, a grade whose write goes through stores the rescheduled card
    under its id, adds one to [done] and keeps the goal; if [done] is then
    still below the goal the session stays in progress with the head of
    the queue as the card shown, and if [done] has reached the goal the
    session is over, which happens exactly when no card was waiting. *)
Theorem gradeCurrent_advances (grade : string) (a : App Dom) (w : World) :
  session_ok (study a) -> gradeable (study a) -> faults w (txs w) = None ->
  exists c,
    current (study a) = Some c /\
    cards (db (fst (fst (grade_ grade a w)))) !! id c
      = Some (fst (applySRS c grade w)) /\
    done (study (fst (fst (grade_ grade a w)))) = done (study a) + 1 /\
    goal (study (fst (fst (grade_ grade a w)))) = goal (study a) /\
    (done (study a) + 1 < goal (study a) ->
       session_ok (study (fst (fst (grade_ grade a w)))) /\
       current (study (fst (fst (grade_ grade a w)))) = head (queue (study a))) /\
    (done (study a) + 1 = goal (study a) ->
       active (study (fst (fst (grade_ grade a w)))) = false /\
       queue (study a) = []) /\
    (done (study a) + 1 <= goal (study a))%Z.
Proof.
  intros Hok Hgr Hflt.
  destruct (session_ok_last _ Hok) as [Hlast Hle].
  destruct Hok as (Hact & [c Hcur] & Hsum).
  destruct (gradeCurrent_step grade a w c Hact Hcur Hgr Hflt)
    as (Hdb & Hdone & Hgoal & Hmode & Hif).
  exists c. split; [exact Hcur|]. split; [rewrite Hdb; apply lookup_insert_eq|].
  split; [exact Hdone|]. split; [exact Hgoal|].
  destruct ((goal (study a) <=? done (study a) + 1)%Z
            || (length (queue (study a)) =? 0)%nat) eqn:E.
  - pose proof (proj1 Hlast eq_refl) as Heq. split; [lia|]. split; [|exact Hle].
    intros _. split; [exact Hif|].
    destruct (queue (study a)); [reflexivity | simpl in Hsum; lia].
  - assert (Hlt : done (study a) + 1 <> goal (study a)).
    { intros Heq. apply Hlast in Heq. discriminate Heq. }
    destruct Hif as (Hact' & Hcur' & Hq' & _).
    split; [|split; [intros; contradiction | exact Hle]].
    intros _. split; [|exact Hcur'].
    destruct (queue (study a)) as [|c2 q] eqn:Eq; [simpl in Hsum; lia|].
    split; [exact Hact'|]. rewrite Hcur', Hq', Hdone, Hgoal. simpl.
    split; [eauto|]. simpl in Hsum. lia.
Qed.

Lemma grade_clicks_inactive (grades : list string) (a : App Dom) (w : World) :
  active (study a) = false -> fst (clicks_ grades a w) = a.
Proof.
  intros Hact. revert w. induction grades as [|g gs IH]; intros w; [reflexivity|].
  cbn [grade_clicks]. unfold bind, gradeCurrent. rewrite Hact. simpl. apply IH.
Qed.


(** X23. When the write of a grade fails (a storage fault hits the
    transaction of [putCard]), the promise is rejected and the database,
    [done], the queue and the goal are as before and the session is still
    in progress, yet the card shown already carries the new schedule: the
    card in memory is ahead of the stored one. *)
Theorem gradeCurrent_write_fails (grade : string) (a : App Dom) (w : World) (c : Card) :
  active (study a) = true -> current (study a) = Some c -> gradeable (study a) ->
  faults w (txs w) = Some 0%nat \/ faults w (txs w) = Some 1%nat ->
  snd (fst (grade_ grade a w)) = Err DOMException /\
  db (fst (fst (grade_ grade a w))) = db a /\
  done (study (fst (fst (grade_ grade a w)))) = done (study a) /\
  queue (study (fst (fst (grade_ grade a w)))) = queue (study a) /\
  goal (study (fst (fst (grade_ grade a w)))) = goal (study a) /\
  active (study (fst (fst (grade_ grade a w)))) = true /\
  current (study (fst (fst (grade_ grade a w)))) = Some (fst (applySRS c grade w)).
Proof.
  intros Hact Hcur Hgr Hflt. unfold gradeCurrent.
  rewrite Hact, Hcur, (gradeable_test _ Hgr). unfold bind.
  pose proof (applySRS_world c grade w) as Hw.
  destruct (applySRS c grade w) as [c' w1]. simpl in Hw. subst w1.
  unfold next_fault, Date_now. cbn [faults txs fst snd].
  unfold putCard, transaction, cards_put, request.
  destruct Hflt as [-> | ->]; simpl; repeat split; reflexivity.
Qed.

Local Abbreviation choose_ := (onGenderChoice Dom renderCurrentCard).
Local Abbreviation reveal_ := (showAnswer Dom set_textContent renderCurrentCard).

(** X24. In a gender quiz with a card shown, [onGenderChoice] records an
    answer, and records it as correct exactly when the choice is the
    card's article in lower case and trimmed and that article is not
    empty; card shown, queue, [done] and the database are untouched, and
    grading is no longer refused.  Whatever was chosen, the grade given
    afterwards stores the same database and counts the same. *)
Theorem onGenderChoice_answer (choice : string) (a : App Dom) (c : Card) :
  current (study a) = Some c -> mode (study a) = "gender" ->
  genderAnswered (study (choose_ choice a)) = true /\
  (genderCorrect (study (choose_ choice a)) = true
   <-> choice = trim (toLowerCase (article c))
       /\ trim (toLowerCase (article c)) <> "") /\
  current (study (choose_ choice a)) = Some c /\
  queue (study (choose_ choice a)) = queue (study a) /\
  done (study (choose_ choice a)) = done (study a) /\
  db (choose_ choice a) = db a /\
  gradeable (study (choose_ choice a)) /\
  (forall choice2 grade w,
     db (fst (fst (grade_ grade (choose_ choice a) w)))
       = db (fst (fst (grade_ grade (choose_ choice2 a) w))) /\
     done (study (fst (fst (grade_ grade (choose_ choice a) w))))
       = done (study (fst (fst (grade_ grade (choose_ choice2 a) w))))).
Proof.
  intros Hcur Hmode. unfold onGenderChoice. rewrite Hcur, Hmode. simpl.
  split; [reflexivity|]. split.
  { rewrite andb_true_iff, negb_true_iff, String.eqb_eq, String.eqb_neq. tauto. }
  split; [reflexivity|]. split; [reflexivity|]. split; [reflexivity|].
  split; [reflexivity|]. split; [by right|].
  intros choice2 grade w. unfold gradeCurrent. simpl. rewrite ?Hcur, ?Hmode. simpl.
  destruct (active (study a)); [|split; reflexivity].
  unfold bind. destruct (applySRS c grade w) as [c' w1].
  destruct (next_fault w1) as [flt w2].
  destruct (putCard flt (db a) c') as [db' [[]|e]]; [|split; reflexivity].
  destruct ((goal (study a) <=? done (study a) + 1)%Z
            || (length (queue (study a)) =? 0)%nat); [|split; reflexivity].
  simpl. destruct (same_id _ _); [|split; reflexivity].
  repeat match goal with |- context [loadCardsForSelectedDeck _ _ _ _ _ ?a2 ?w3] =>
    let Hs := fresh "Hs" in let Hd := fresh "Hd" in
    destruct (loadCardsForSelectedDeck_frame a2 w3) as [Hs Hd];
    rewrite Hs, Hd; clear Hs Hd end.
  split; reflexivity.
Qed.

(** X25. The reveal button in a quiz with a card shown marks the card as
    answered and not correct, even when a correct answer had been given,
    leaves card, queue, [done] and database untouched, and grading is no
    longer refused; in flashcard mode it turns the card over, and a second
    click turns it back. *)
Theorem showAnswer_reveals (a : App Dom) (c : Card) :
  active (study a) = true -> current (study a) = Some c ->
  (mode (study a) <> "flash" ->
     genderAnswered (study (reveal_ a)) = true /\
     genderCorrect (study (reveal_ a)) = false /\
     gradeable (study (reveal_ a))) /\
  (mode (study a) = "flash" ->
     flipped (study (reveal_ a)) = negb (flipped (study a)) /\
     study (reveal_ (reveal_ a)) = study a) /\
  current (study (reveal_ a)) = Some c /\
  queue (study (reveal_ a)) = queue (study a) /\
  done (study (reveal_ a)) = done (study a) /\
  db (reveal_ a) = db a.
Proof.
  intros Hact Hcur. unfold showAnswer. rewrite Hact, Hcur.
  destruct (String.eqb_spec (mode (study a)) "flash") as [Hm|Hm]; simpl.
  - split; [intros; contradiction|]. split; [|by repeat split].
    intros _. rewrite ?Hact, ?Hcur, ?Hm. simpl. split; [reflexivity|].
    rewrite negb_involutive. destruct (study a); simpl in *; congruence.
  - split; [|split; [intros; contradiction | by repeat split]].
    intros _. split; [reflexivity|]. split; [reflexivity | by right].
Qed.

End SessionRunFacts.

(** ** Starting a session *)

Lemma buildStudyQueue_props (cards : list Card) (goal : Z) (w : World) :
  NoDup (id <$> cards) -> (0 <= goal <= Z.of_nat (length cards))%Z -> random_ok w ->
  exists q,
    fst (buildStudyQueue cards goal w) = Some q /\
    Z.of_nat (length q) = goal /\ NoDup (id <$> q) /\ q ⊆ cards.
Proof.
  intros Hnd Hgoal Hw.
  destruct (buildStudyQueue_shape cards goal w Hnd Hw) as (q' & Hrun & Hcase).
  exists (slice0 q' goal). split; [exact Hrun|].
  rewrite slice0_nonneg by lia.
  assert (Hsub : q' ⊆ cards /\ NoDup (id <$> q') /\ (goal <= Z.of_nat (length q'))%Z).
  { destruct Hcase as [[_ Hp]|[Hge Hp]].
    - split; [intros x Hx; by rewrite <- Hp|]. split; [by rewrite Hp|].
      rewrite (Permutation_length Hp). lia.
    - split; [intros x Hx; rewrite Hp in Hx; by apply list_elem_of_filter in Hx as [_ Hx]|].
      split; [|rewrite (Permutation_length Hp); lia].
      rewrite Hp. eapply sublist_NoDup; [exact Hnd | apply fmap_sublist, sublist_filter]. }
  destruct Hsub as (Hsub & Hnd' & Hlen).
  split; [rewrite length_take; lia|].
  split; [rewrite fmap_take; eapply sublist_NoDup; [exact Hnd' | apply sublist_take]|].
  intros x Hx. apply Hsub. by apply (subseteq_take _ _ _ Hx).
Qed.

Lemma deck_records_NoDup_id (db : Store) (deck : string) :
  keyPath_ok db -> NoDup (id <$> deck_records db deck).
Proof.
  intros Hkey. unfold deck_records. rewrite <- list_fmap_compose.
  assert (Heq : (id ∘ snd) <$> filter (fun kc : string * Card => deckId kc.2 = deck)
                                      (map_to_list (cards db))
                = (filter (fun kc : string * Card => deckId kc.2 = deck)
                          (map_to_list (cards db))).*1).
  { apply list_fmap_ext. intros i [k c] Hin. simpl.
    apply list_elem_of_lookup_2, list_elem_of_filter in Hin as [_ Hin].
    apply elem_of_map_to_list in Hin. by apply (Hkey k c). }
  rewrite Heq. eapply sublist_NoDup; [apply (NoDup_fst_map_to_list (cards db))|].
  apply fmap_sublist, sublist_filter.
Qed.

Section SessionStartFacts.

Variable Dom : Type.
Variable set_textContent : string -> string -> Dom -> Dom.
Variable setStudyVisible : bool -> Dom -> Dom.
Variable renderCurrentCard : Study -> Dom -> Dom.
Variable alert : string -> Dom -> Dom.
Variable studyDeckSelect_value : Dom -> string.
Variable sessionGoal_number : Dom -> Z.
Variable modeGender_active : Dom -> bool.

Local Abbreviation start_ :=
  (startSession Dom set_textContent setStudyVisible renderCurrentCard alert
                studyDeckSelect_value sessionGoal_number modeGender_active).

(** X26. [startSession] on a selected deck that has cards (records stored
    under their ids, no storage fault, generator within [0, 1)) leaves a
    session in progress: [done] is 0, the goal is the requested number
    clamped to [5, 200] and capped by the number of cards of the deck, a
    card is shown, the cards shown and waiting are as many as the goal,
    have distinct ids and are stored cards of that deck, and the database
    is untouched. *)
Theorem startSession_starts (a : App Dom) (w : World) :
  studyDeckSelect_value (dom a) <> "" ->
  faults w (txs w) = None ->
  keyPath_ok (db a) ->
  deck_records (db a) (studyDeckSelect_value (dom a)) <> [] ->
  random_ok w ->
  exists a' c,
    fst (start_ a w) = Some (a', Ok tt) /\
    session_ok (study a') /\
    current (study a') = Some c /\
    done (study a') = 0 /\
    goal (study a')
      = Z.min (clamp_int (sessionGoal_number (dom a)) 5 200)
              (Z.of_nat (length (deck_records (db a) (studyDeckSelect_value (dom a))))) /\
    study_deckId (study a') = Some (studyDeckSelect_value (dom a)) /\
    NoDup (id <$> c :: queue (study a')) /\
    (forall x, x ∈ c :: queue (study a') ->
       cards (db a) !! id x = Some x /\ deckId x = studyDeckSelect_value (dom a)) /\
    db a' = db a.
Proof.
  intros Hsel Hflt Hkey Hcards Hrnd.
  unfold startSession. apply String.eqb_neq in Hsel. rewrite Hsel.
  unfold bind, next_fault. rewrite Hflt, getCardsByDeck_outcome. simpl.
  set (v := studyDeckSelect_value (dom a)) in *.
  set (l := sort_by _ (by_deck (db a) v).*2).
  assert (Hl : l ≡ₚ deck_records (db a) v)
    by (subst l; rewrite sort_by_perm; apply by_deck_records).
  assert (Hlen : (1 <= length l)%nat).
  { rewrite (Permutation_length Hl). destruct (deck_records (db a) v); [done | simpl; lia]. }
  destruct (Nat.eqb_spec (length l) 0) as [?|_]; [lia|].
  assert (Hnd : NoDup (id <$> l)) by (rewrite Hl; by apply deck_records_NoDup_id).
  set (g := Z.min (clamp_int (sessionGoal_number (dom a)) 5 200) (Z.of_nat (length l))).
  assert (Hg : (1 <= g <= Z.of_nat (length l))%Z) by (subst g; unfold clamp_int; lia).
  assert (Hgdef : g = Z.min (clamp_int (sessionGoal_number (dom a)) 5 200)
                            (Z.of_nat (length l))) by reflexivity.
  clearbody g l.
  assert (Hg0 : (0 <= g <= Z.of_nat (length l))%Z) by lia.
  match goal with |- context [buildStudyQueue l g ?w1] =>
    destruct (buildStudyQueue_props l g w1 Hnd Hg0) as (q & Hq & Hqlen & Hqnd & Hqsub);
      [intros n Hn; by apply Hrnd|];
    destruct (buildStudyQueue l g w1) as [built w2] end.
  simpl in Hq. subst built.
  destruct q as [|c q]; [simpl in Hqlen; lia|].
  eexists _, c. split; [reflexivity|]. simpl.
  split; [split; [reflexivity|]; split; [eauto|]; simpl; rewrite <- Hqlen;
          rewrite length_cons; lia|].
  split; [reflexivity|]. split; [reflexivity|].
  split; [rewrite Hgdef; by rewrite (Permutation_length Hl)|].
  split; [reflexivity|]. split; [exact Hqnd|]. split; [|reflexivity].
  intros x Hx. apply Hqsub in Hx. rewrite Hl in Hx.
  apply elem_of_deck_records in Hx as (key & Hx & Hd).
  split; [|exact Hd]. by rewrite (Hkey key x Hx).
Qed.

(** X27. [startSession] starts nothing when no deck is selected or the
    selected deck has no card: it only raises an alert, and the session
    state and the database stay as they were. *)
Theorem startSession_refuses (a : App Dom) (w : World) :
  studyDeckSelect_value (dom a) = "" \/
  (faults w (txs w) = None /\
   deck_records (db a) (studyDeckSelect_value (dom a)) = []) ->
  exists a',
    fst (start_ a w) = Some (a', Ok tt) /\
    study a' = study a /\ db a' = db a /\
    (dom a' = alert "Create/select a deck first." (dom a) \/
     dom a' = alert "That deck has no cards." (dom a)).
Proof.
  intros H. unfold startSession.
  destruct (String.eqb_spec (studyDeckSelect_value (dom a)) "") as [Hv|Hv].
  - eexists. split; [reflexivity|]. simpl. by repeat split; [..|left].
  - destruct H as [H|[Hflt Hno]]; [contradiction|].
    unfold bind, next_fault. rewrite Hflt, getCardsByDeck_outcome. simpl.
    assert (Hl : sort_by (fun a0 b : Card => (createdAt a0 <=? createdAt b)%Z)
                   (by_deck (db a) (studyDeckSelect_value (dom a))).*2 = []).
    { apply Permutation_nil. rewrite sort_by_perm, by_deck_records. by rewrite Hno. }
    rewrite Hl. simpl. eexists. split; [reflexivity|]. simpl.
    by repeat split; [..|right].
Qed.

End SessionStartFacts.

(** ** Exporting a deck *)

Lemma csv_last_row_ok_long (rows : list (list string)) :
  Forall (fun r => (1 < length r)%nat) rows -> csv_last_row_ok rows.
Proof.
  intros H. unfold csv_last_row_ok.
  destruct (last rows) as [r|] eqn:E; [|exact Logic.I].
  left. rewrite Forall_forall in H. apply H. by apply last_Some_elem_of.
Qed.

Lemma csv_header_ok : csv_row_ok csv_header.
Proof.
  split; [discriminate|].
  repeat (apply List.Forall_cons; [right; reflexivity|]). apply List.Forall_nil.
Qed.

Section ExportDeckFacts.

Variable Dom : Type.
Variable set_textContent : string -> string -> Dom -> Dom.
Variable downloadFile : string -> string -> string -> Dom -> Dom.
Variable exportDeckSelect_value : Dom -> string.

Local Abbreviation export_ :=
  (exportDeckCSV Dom set_textContent downloadFile exportDeckSelect_value).

(** X28. [exportDeckCSV] on a selected deck, without a storage fault,
    downloads a text that [parseCSV] reads back as the header row followed
    by one row per card of the deck, in the order of [getCardsByDeck], each
    row holding the deck name and the six texts of the card as they are
    stored, provided the deck name and the texts can be written to CSV (no
    carriage return in a cell that is not quoted); the database and the
    session are untouched. *)
Theorem exportDeckCSV_parses_back (a : App Dom) (w : World) (deck_name : string) :
  exportDeckSelect_value (dom a) <> "" ->
  faults w (txs w) = None ->
  deck_name
    = match List.find (fun d => String.eqb (deck_id d) (exportDeckSelect_value (dom a)))
                      (app_decks a) with
      | Some d => name d
      | None => ""
      end ->
  csv_cell_ok deck_name ->
  (forall key c, cards (db a) !! key = Some c ->
     deckId c = exportDeckSelect_value (dom a) -> card_csv_ok c) ->
  exists l filename csv msg,
    getCardsByDeck None (db a) (exportDeckSelect_value (dom a)) = (db a, Ok l) /\
    fst (export_ a w)
      = (mkApp Dom (db a) (app_decks a) (selectedDeckId a) (selectedDeckCards a)
               (study a)
               (set_textContent "#exportMsg" msg
                  (downloadFile filename csv "text/csv" (dom a))),
         Ok tt) /\
    parseCSV csv = csv_header :: map (csv_card_row deck_name) l.
Proof.
  intros Hsel Hflt Hname Hdeck Hcards.
  unfold exportDeckCSV. apply String.eqb_neq in Hsel. rewrite Hsel.
  unfold bind, next_fault. rewrite Hflt, !getCardsByDeck_outcome. simpl.
  rewrite <- Hname.
  set (v := exportDeckSelect_value (dom a)) in *.
  set (l := sort_by _ (by_deck (db a) v).*2).
  exists l. eexists _, _, _. split; [reflexivity|]. split; [reflexivity|].
  apply parseCSV_toCSV_rows.
  - apply List.Forall_cons; [apply csv_header_ok|].
    apply Forall_forall. intros r Hr.
    apply list_elem_of_fmap in Hr as (c & -> & Hc).
    subst l. rewrite sort_by_perm, by_deck_records in Hc.
    apply elem_of_deck_records in Hc as (key & Hc & Hd).
    split; [discriminate|].
    apply List.Forall_cons; [exact Hdeck | exact (Hcards key c Hc Hd)].
  - apply csv_last_row_ok_long.
    apply List.Forall_cons; [simpl; lia|].
    apply Forall_forall. intros r Hr.
    apply list_elem_of_fmap in Hr as (c & -> & _). simpl. lia.
Qed.

End ExportDeckFacts.

(** ** The properties above on the sample values *)

Lemma keys_ok_db0 : keys_ok db0.
Proof.
  split; [exact keyPath_ok_db0|]. apply (bool_decide_unpack _). vm_compute. exact I.
Defined.

Lemma no_orphans_db0 : no_orphans db0.
Proof. apply (bool_decide_unpack _). vm_compute. exact I. Defined.

Lemma no_faults_world0 : no_faults world0.
Proof. intros n _. reflexivity. Defined.

Lemma session_ok_study_flash : session_ok study_flash.
Proof. split; [reflexivity|]. split; [by eexists | reflexivity]. Defined.

Lemma gradeable_study_flash : gradeable study_flash.
Proof. left. discriminate. Defined.

Lemma updateDeck_renames_witness :
  deck_keyPath_ok db0 /\
  exists d', updateDeck None db0 "d1" " Verben " = (mkStore (<["d1" := d']> (decks db0)) (cards db0), Ok d')
             /\ name d' = "Verben".
Proof.
  split; [exact (proj2 keys_ok_db0)|].
  pose proof (updateDeck_renames db0 "d1" " Verben " (proj2 keys_ok_db0)) as H.
  change (decks db0 !! "d1") with (Some deck1) in H.
  destruct H as (d' & Hrun & Hn & _). exists d'. split; [exact Hrun | exact Hn].
Defined.

Lemma addCard_never_overwrites_witness :
  is_Some (cards db_taken !! fst (uid world0)) /\
  fst (addCard None db_taken "d1" fields0 world0) = (db_taken, Err DOMException).
Proof.
  assert (H : is_Some (cards db_taken !! fst (uid world0))).
  { exists card3. vm_compute. reflexivity. }
  split; [exact H|].
  exact (addCard_never_overwrites None db_taken "d1" fields0 world0 H).
Defined.

Lemma keys_ok_preserved_witness :
  keys_ok db0 /\ keys_ok (fst (deleteDeck (Some 3%nat) db0 "d0")).
Proof.
  split; [exact keys_ok_db0|].
  destruct (keys_ok_preserved (Some 3%nat) db0 world0 keys_ok_db0)
    as (_ & _ & _ & _ & H & _).
  exact (H "d0").
Defined.

Lemma no_orphans_preserved_witness :
  no_orphans db0 /\ no_orphans (fst (deleteDeck None db0 "d0")).
Proof.
  split; [exact no_orphans_db0|].
  exact (proj1 (no_orphans_preserved None db0 world0 no_orphans_db0) "d0").
Defined.

Lemma gradeCurrent_advances_witness :
  session_ok (study app_flash) /\ gradeable (study app_flash) /\
  faults world0 (txs world0) = None /\
  done (study (fst (fst (gradeCurrent0 "good" app_flash world0)))) = 1.
Proof.
  split; [exact session_ok_study_flash|]. split; [exact gradeable_study_flash|].
  split; [reflexivity|].
  destruct (gradeCurrent_advances Page page_set page_visible page_card
              (fun _ _ d => d) (fun _ d => ret d) (fun _ _ d => ret d)
              "good" app_flash world0 session_ok_study_flash gradeable_study_flash
              eq_refl) as (c & _ & _ & Hd & _).
  exact Hd.
Defined.


Lemma gradeCurrent_write_fails_witness :
  active (study app_flash) = true /\ current (study app_flash) = Some card0 /\
  gradeable (study app_flash) /\ faults world1 (txs world1) = Some 0%nat /\
  snd (fst (gradeCurrent0 "good" app_flash world1)) = Err DOMException /\
  db (fst (fst (gradeCurrent0 "good" app_flash world1))) = db0.
Proof.
  split; [reflexivity|]. split; [reflexivity|]. split; [exact gradeable_study_flash|].
  split; [reflexivity|].
  destruct (gradeCurrent_write_fails Page page_set page_visible page_card
              (fun _ _ d => d) (fun _ d => ret d) (fun _ _ d => ret d)
              "good" app_flash world1 card0 eq_refl eq_refl gradeable_study_flash
              (or_introl eq_refl)) as (Hr & Hd & _).
  split; [exact Hr | exact Hd].
Defined.

Lemma onGenderChoice_answer_witness :
  current (study app0) = Some card0 /\ mode (study app0) = "gender" /\
  genderCorrect (study (onGenderChoice0 "das" app0)) = true.
Proof.
  split; [reflexivity|]. split; [reflexivity|].
  destruct (onGenderChoice_answer Page page_set page_visible page_card
              (fun _ _ d => d) (fun _ d => ret d) (fun _ _ d => ret d)
              "das" app0 card0 eq_refl eq_refl) as (_ & Hc & _).
  apply Hc. split; [reflexivity | discriminate].
Defined.

Lemma showAnswer_reveals_witness :
  active (study app0) = true /\ current (study app0) = Some card0 /\
  genderAnswered (study (showAnswer0 app0)) = true /\
  genderCorrect (study (showAnswer0 (onGenderChoice0 "das" app0))) = false.
Proof.
  split; [reflexivity|]. split; [reflexivity|].
  assert (Hm : mode (study app0) <> "flash") by discriminate.
  split.
  - exact (proj1 (proj1 (showAnswer_reveals Page page_set page_card app0 card0
                           eq_refl eq_refl) Hm)).
  - exact (proj1 (proj2 (proj1 (showAnswer_reveals Page page_set page_card
                                  (onGenderChoice0 "das" app0) card0
                                  eq_refl eq_refl) Hm))).
Defined.

Lemma deck_records_db0 : deck_records db0 "d0" <> [].
Proof. vm_compute. discriminate. Defined.

Lemma startSession_starts_witness :
  deck_records (db app0) "d0" <> [] /\ keyPath_ok (db app0) /\ random_ok world0 /\
  exists a' c,
    fst (startSession0 app0 world0) = Some (a', Ok tt) /\
    current (study a') = Some c /\ goal (study a') = 3.
Proof.
  split; [exact deck_records_db0|]. split; [exact keyPath_ok_db0|].
  split; [exact random_ok_world0|].
  assert (Hsel : "d0" <> "") by discriminate.
  destruct (startSession_starts Page page_set page_visible page_card page_alert
              (fun _ => "d0") (fun _ => 20) (fun _ => false) app0 world0
              Hsel eq_refl keyPath_ok_db0 deck_records_db0 random_ok_world0)
    as (a' & c & Hrun & _ & Hcur & _ & Hgoal & _).
  exists a', c. split; [exact Hrun|]. split; [exact Hcur|].
  rewrite Hgoal. vm_compute. reflexivity.
Defined.

Lemma startSession_refuses_witness :
  exists a', fst (startSession_none app0 world0) = Some (a', Ok tt) /\
             study a' = study app0 /\ db a' = db app0.
Proof.
  destruct (startSession_refuses Page page_set page_visible page_card page_alert
              (fun _ => "") (fun _ => 20) (fun _ => false) app0 world0
              (or_introl eq_refl)) as (a' & Hrun & Hs & Hd & _).
  exists a'. split; [exact Hrun|]. split; [exact Hs | exact Hd].
Defined.

Lemma cards_csv_ok_db0 :
  forall key c, cards db0 !! key = Some c -> deckId c = "d0" -> card_csv_ok c.
Proof.
  assert (H : map_Forall (fun _ c => card_csv_ok c) (cards db0)).
  { apply (bool_decide_unpack _). vm_compute. exact I. }
  intros key c Hc _. exact (H key c Hc).
Defined.

Lemma exportDeckCSV_parses_back_witness :
  csv_cell_ok "Starter" /\
  exists l filename csv msg,
    fst (exportDeckCSV0 app0 world0)
      = (mkApp Page db0 [deck0; deck1] (Some "d0") [card0; card1; card2] study0
               [("#exportMsg", msg); (filename, csv)], Ok tt) /\
    parseCSV csv = csv_header :: map (csv_card_row "Starter") l /\
    length l = 3%nat.
Proof.
  assert (Hn : csv_cell_ok "Starter") by (right; reflexivity).
  assert (Hsel : "d0" <> "") by discriminate.
  split; [exact Hn|].
  destruct (exportDeckCSV_parses_back Page page_set page_download (fun _ => "d0")
              app0 world0 "Starter" Hsel eq_refl eq_refl Hn cards_csv_ok_db0)
    as (l & filename & csv & msg & Hl & Hrun & Hparse).
  exists l, filename, csv, msg. split; [exact Hrun|]. split; [exact Hparse|].
  vm_compute in Hl. injection Hl as <-. reflexivity.
Defined.
